(** * Flight Centre itinerary scraper: the extraction core of [streamlit_app.py]

    A shallow embedding of the [FlightCentreScraper] class: the text
    normalizer [clean_text], the page classifier [determine_scraper_type],
    the cruise and tour extractors over a parsed document tree and the
    orchestrator [scrape_content].

    Python strings are sequences of Unicode code points, so a [str] is a
    list of code points ([N]).  The document tree is the store the
    BeautifulSoup objects live in: a tag reference is a path from the
    document root, and the extractors run in a state-and-exception monad
    over that store, because the cruise extractor calls [decompose] on
    nodes of the tree it was given. *)

From Stdlib Require Import List Ascii NArith Arith Bool Lia.
From Stdlib Require String.
Import ListNotations String.StringSyntax.

Set Implicit Arguments.
Set Warnings "-register-all".

(* ================================================================== *)
(** * Python strings *)
(* ================================================================== *)

Module Py.

Definition char := N.
Definition str := list char.

(** An ASCII literal as a Python string. *)
Definition u (s : String.string) : str :=
  map N_of_ascii (String.list_ascii_of_string s).
Arguments u s%_string_scope.

Definition nonempty (s : str) : bool :=
  match s with [] => false | _ :: _ => true end.

Fixpoint str_eqb (a b : str) : bool :=
  match a, b with
  | [], [] => true
  | x :: a', y :: b' => N.eqb x y && str_eqb a' b'
  | _, _ => false
  end.

(** [s.startswith(p)] *)
Fixpoint startswith (p s : str) : bool :=
  match p, s with
  | [], _ => true
  | x :: p', y :: s' => N.eqb x y && startswith p' s'
  | _ :: _, [] => false
  end.

(** [sub in s] *)
Fixpoint contains (sub s : str) : bool :=
  startswith sub s ||
  match s with
  | [] => false
  | _ :: s' => contains sub s'
  end.

(** [s.replace(old, new)] for a non-empty [old]: occurrences are taken
    left to right and do not overlap; [skip] counts the characters of
    the occurrence just replaced that are still to be passed over. *)
Fixpoint replace_from (old new : str) (skip : nat) (s : str) : str :=
  match s with
  | [] => []
  | c :: s' =>
      match skip with
      | S k => replace_from old new k s'
      | O =>
          if startswith old s
          then new ++ replace_from old new (length old - 1) s'
          else c :: replace_from old new 0 s'
      end
  end.

(** [s.replace(old, new)]; with an empty [old] Python puts [new] before
    every character and at the end. *)
Definition replace (old new s : str) : str :=
  match old with
  | [] => new ++ flat_map (fun c => c :: new) s
  | _ :: _ => replace_from old new 0 s
  end.

(** [s.split(sep)] for a one-character separator: never empty. *)
Fixpoint split (sep : char) (s : str) : list str :=
  match s with
  | [] => [[]]
  | c :: s' =>
      if N.eqb c sep then [] :: split sep s'
      else match split sep s' with
           | piece :: pieces => (c :: piece) :: pieces
           | [] => [[c]]
           end
  end.

(** [sep.join(parts)] *)
Fixpoint join (sep : str) (parts : list str) : str :=
  match parts with
  | [] => []
  | [p] => p
  | p :: rest => p ++ sep ++ join sep rest
  end.

(** Code-point tables of the interpreter (CPython 3.11, Unicode 14.0):
    [str.isspace], which is also what [str.strip()] removes and what
    [\s] matches in a [str] pattern. *)
Definition whitespace : list char :=
  [9; 10; 11; 12; 13; 28; 29; 30; 31; 32; 133; 160; 5760;
   8192; 8193; 8194; 8195; 8196; 8197; 8198; 8199; 8200; 8201; 8202;
   8232; 8233; 8239; 8287; 12288]%N.

Definition is_space (c : char) : bool := existsb (N.eqb c) whitespace.

(** General category Nd, which is what [\d] matches in a [str] pattern:
    inclusive ranges. *)
Definition decimal_ranges : list (char * char) :=
  map (fun lo => (lo, lo + 9)%N)
    [48; 1632; 1776; 1984; 2406; 2534; 2662; 2790; 2918; 3046; 3174;
     3302; 3430; 3558; 3664; 3792; 3872; 4160; 4240; 6112; 6160; 6470;
     6608; 6784; 6800; 6992; 7088; 7232; 7248; 42528; 43216; 43264;
     43472; 43504; 43600; 44016; 65296; 66720; 68912; 69734; 69872;
     69942; 70096; 70384; 70736; 70864; 71248; 71360; 71472; 71904;
     72016; 72784; 73040; 73120; 92768; 92864; 93008; 123200; 123632;
     125264; 130032]%N
  ++ [(120782, 120831)%N].

Definition is_digit (c : char) : bool :=
  existsb (fun r => N.leb (fst r) c && N.leb c (snd r)) decimal_ranges.

Fixpoint take_while (f : char -> bool) (s : str) : str :=
  match s with
  | [] => []
  | c :: s' => if f c then c :: take_while f s' else []
  end.

Fixpoint drop_while (f : char -> bool) (s : str) : str :=
  match s with
  | [] => []
  | c :: s' => if f c then drop_while f s' else s
  end.

Definition lstrip (s : str) : str := drop_while is_space s.
Definition rstrip (s : str) : str := rev (drop_while is_space (rev s)).

(** [s.strip()] *)
Definition strip (s : str) : str := rstrip (lstrip s).

(** [s.endswith(c)] for a one-character suffix. *)
Definition endswith (c : char) (s : str) : bool :=
  match rev s with
  | x :: _ => N.eqb x c
  | [] => false
  end.

End Py.
Import Py.

(* ================================================================== *)
(** * Regular expressions of the extractors *)
(* ================================================================== *)

Module Re.

(** The rest of [s] after the literal [p], when [s] starts with it. *)
Fixpoint after_literal (p s : str) : option str :=
  match p, s with
  | [], _ => Some s
  | x :: p', y :: s' => if N.eqb x y then after_literal p' s' else None
  | _ :: _, [] => None
  end.

(** A match object, as far as the extractors read it: [group(1)]. *)
Record Match := { group1 : str }.

(** [\s+(\d+)] at the start of [r]: the greedy [\s+] first takes the
    whole run of [k] white-space characters and gives them back one at a
    time; [(\d+)] takes every digit that follows. *)
Fixpoint spaces_then_digits (k : nat) (r : str) : option Match :=
  match k with
  | O => None
  | S k' =>
      let digits := take_while is_digit (skipn k r) in
      if nonempty digits then Some {| group1 := digits |}
      else spaces_then_digits k' r
  end.

(** [Day\s+(\d+)] at the start of [s]. *)
Definition match_day (s : str) : option Match :=
  match after_literal (u "Day") s with
  | None => None
  | Some r => spaces_then_digits (length (take_while is_space r)) r
  end.

(** [re.search(r'Day\s+(\d+)', s)]: the leftmost position that matches. *)
Fixpoint search_day (s : str) : option Match :=
  match match_day s with
  | Some m => Some m
  | None =>
      match s with
      | [] => None
      | _ :: s' => search_day s'
      end
  end.

(** [(\d+):] at the start of [r]: the greedy [\d+] first takes the whole
    run of [j] digits and gives them back one at a time until a colon
    follows.  The answer is the number of digits kept. *)
Fixpoint digits_then_colon (j : nat) (r : str) : option nat :=
  match j with
  | O => None
  | S j' =>
      match nth_error r j with
      | Some c => if N.eqb c 58 then Some j else digits_then_colon j' r
      | None => digits_then_colon j' r
      end
  end.

(** [Day (\d+):] at the start of [s]: the digits and what follows the
    colon. *)
Definition match_day_colon (s : str) : option (str * str) :=
  match after_literal (u "Day ") s with
  | None => None
  | Some r =>
      match digits_then_colon (length (take_while is_digit r)) r with
      | None => None
      | Some j => Some (firstn j r, skipn (S j) r)
      end
  end.

(** [re.search(r'Day (\d+):', s)] *)
Fixpoint search_day_colon (s : str) : option Match :=
  match match_day_colon s with
  | Some (digits, _) => Some {| group1 := digits |}
  | None =>
      match s with
      | [] => None
      | _ :: s' => search_day_colon s'
      end
  end.

(** [re.sub(r'^Day \d+:\s*', '', s)]: without [re.MULTILINE] the anchor
    holds at position 0 only, so at most one occurrence is removed. *)
Definition sub_day_prefix (s : str) : str :=
  match match_day_colon s with
  | Some (_, rest) => drop_while is_space rest
  | None => s
  end.

End Re.

(* ================================================================== *)
(** * The document tree *)
(* ================================================================== *)

Module Soup.

(** What the extractors can see of a parsed document: text nodes and
    tags with their name, their class tokens and their contents.  [Gone]
    marks the place of a node that was decomposed: it is invisible to
    every search and to [get_text], and keeping the place makes the paths
    of the other nodes stay valid, as the object references of the
    source do. *)
Inductive node :=
| Txt (s : str)
| Elem (name : str) (classes : list str) (contents : list node)
| Gone.

Definition path := list nat.

(** The node a path leads to; [Gone] when the path leaves the tree or
    enters a decomposed node, whose contents are empty. *)
Fixpoint at_path (t : node) (p : path) : node :=
  match p with
  | [] => t
  | i :: p' =>
      match t with
      | Elem _ _ ks =>
          match nth_error ks i with
          | Some k => at_path k p'
          | None => Gone
          end
      | _ => Gone
      end
  end.

Fixpoint alter_nth (f : node -> node) (i : nat) (ks : list node) : list node :=
  match ks, i with
  | [], _ => []
  | k :: ks', O => f k :: ks'
  | k :: ks', S i' => k :: alter_nth f i' ks'
  end.

(** The tree with the node at [p] decomposed; a path that leads nowhere
    changes nothing. *)
Fixpoint remove_at (t : node) (p : path) : node :=
  match p with
  | [] => Gone
  | i :: p' =>
      match t with
      | Elem n c ks => Elem n c (alter_nth (fun k => remove_at k p') i ks)
      | _ => t
      end
  end.

Definition under (i : nat) (x : path * node) : path * node :=
  (i :: fst x, snd x).

(** [tag.descendants]: every node below [t] in document order, with its
    path from [t]. *)
Fixpoint descendants (t : node) : list (path * node) :=
  match t with
  | Elem _ _ ks =>
      (fix walk (i : nat) (ks : list node) : list (path * node) :=
         match ks with
         | [] => []
         | k :: ks' =>
             ([i], k) :: map (under i) (descendants k) ++ walk (S i) ks'
         end) 0 ks
  | _ => []
  end.

(** [tag.children] *)
Fixpoint children_from (i : nat) (ks : list node) : list (path * node) :=
  match ks with
  | [] => []
  | k :: ks' => ([i], k) :: children_from (S i) ks'
  end.

Definition children (t : node) : list (path * node) :=
  match t with
  | Elem _ _ ks => children_from 0 ks
  | _ => []
  end.

(** A search filter: a tag whose name is one of [names] and, when
    [class_] is given, one of whose class tokens is one of [class_]. *)
Definition selects (names : list str) (class_ : option (list str))
    (n : node) : bool :=
  match n with
  | Elem nm cl _ =>
      existsb (str_eqb nm) names &&
      match class_ with
      | None => true
      | Some wanted => existsb (fun w => existsb (str_eqb w) cl) wanted
      end
  | _ => false
  end.

Definition matching (sel : node -> bool) (l : list (path * node)) : list path :=
  map fst (filter (fun x => sel (snd x)) l).

(** The stripped, non-empty strings below [t], concatenated:
    [t.get_text(strip=True)]. *)
Definition text_of (x : path * node) : str :=
  match snd x with
  | Txt s => strip s
  | _ => []
  end.

Definition node_text (t : node) : str :=
  concat (map text_of (descendants t)).

End Soup.
Import Soup.

(* ================================================================== *)
(** * Running Python over the document *)
(* ================================================================== *)

(** [TransportError] stands for an exception of the HTTP session that is
    not a [requests.RequestException], known by the name of its class
    (urllib3's [LocationParseError], for one). *)
Inductive exn :=
| AttributeError
| IndexError
| ValueError
| Exception (msg : str)
| TransportError (class_name : str).

Inductive result (A : Type) :=
| Ok (a : A)
| Raise (e : exn).
Arguments Ok {A} a.
Arguments Raise {A} e.

(** A computation over the document: it returns a value and the document
    as it has left it, or raises. *)
Definition M (A : Type) := node -> result (A * node).

Definition ret {A} (a : A) : M A := fun soup => Ok (a, soup).

Definition bind {A B} (m : M A) (k : A -> M B) : M B :=
  fun soup =>
    match m soup with
    | Ok (a, soup') => k a soup'
    | Raise e => Raise e
    end.

Definition raise {A} (e : exn) : M A := fun _ => Raise e.

Notation "x <- m ;; k" := (bind m (fun x => k))
  (at level 61, m at next level, right associativity).
Notation "m ;;; k" := (bind m (fun _ => k))
  (at level 61, right associativity).

(** A Python name bound to a tag or to [None]; the tag is known by its
    path from the document root.  [soup] itself is the root. *)
Definition ref := option path.

Definition soup : ref := Some [].

(** [if x:] on a tag or [None]: a tag is always true. *)
Definition truthy {A} (x : option A) : bool :=
  match x with Some _ => true | None => false end.

(** A method called on [None] raises [AttributeError]. *)
Definition on_tag {A} (x : ref) (f : path -> node -> result (A * node)) : M A :=
  fun soup =>
    match x with
    | None => Raise AttributeError
    | Some p => f p soup
    end.

(** [x.find(name, class_=c)]: the first descendant that matches. *)
Definition find (x : ref) (name : str) (class_ : option str) : M ref :=
  on_tag x (fun p soup =>
    Ok (option_map (app p)
          (hd_error (matching (selects [name] (option_map (fun c => [c]) class_))
                              (descendants (at_path soup p)))),
        soup)).

(** [x.find_all(names, class_=cs, recursive=r)] *)
Definition find_all (x : ref) (names : list str) (class_ : option (list str))
    (recursive : bool) : M (list ref) :=
  on_tag x (fun p soup =>
    let here := at_path soup p in
    Ok (map (fun q => Some (p ++ q))
          (matching (selects names class_)
                    (if recursive then descendants here else children here)),
        soup)).

(** [x.get_text(strip=True)] *)
Definition get_text (x : ref) : M str :=
  on_tag x (fun p soup => Ok (node_text (at_path soup p), soup)).

(** [x.decompose()] *)
Definition decompose (x : ref) : M unit :=
  on_tag x (fun p soup => Ok (tt, remove_at soup p)).

(** [l[i]] *)
Definition index {A} (l : list A) (i : nat) : M A :=
  match nth_error l i with
  | Some a => ret a
  | None => raise IndexError
  end.

(** [m.group(1)] on a match object or [None]. *)
Definition group (m : option Re.Match) : M str :=
  match m with
  | Some m => ret (Re.group1 m)
  | None => raise AttributeError
  end.

(** [if l:] on a list. *)
Definition nonempty_list {A} (l : list A) : bool :=
  match l with [] => false | _ :: _ => true end.

(** [for x in l: acc = body(x, acc)] *)
Fixpoint for_each {A S} (l : list A) (body : A -> S -> M S) (acc : S) : M S :=
  match l with
  | [] => ret acc
  | x :: l' => acc' <- body x acc ;; for_each l' body acc'
  end.

(* ================================================================== *)
(** * The scraper *)
(* ================================================================== *)

(** ** [determine_scraper_type] *)

Definition determine_scraper_type (url : str) : option str :=
  if contains (u "cruises.flightcentre") url then Some (u "cruise")
  else if contains (u "tours.flightcentre") url then Some (u "tour")
  else None.

(** ** [clean_text] *)

(** The [replacements] dictionary, in insertion order. *)
Definition replacements : list (char * str) :=
  [ (8211%N, u "-");      (* en dash *)
    (8212%N, u "-");      (* em dash *)
    (8217%N, u "'");      (* right single quotation mark *)
    (8216%N, u "'");      (* left single quotation mark *)
    (8220%N, [34%N]);     (* left double quotation mark *)
    (8221%N, [34%N]);     (* right double quotation mark *)
    (8230%N, u "...") ].  (* horizontal ellipsis *)

(** The body of [clean_text] on a string. *)
Definition clean (text : str) : str :=
  if negb (nonempty text) then text
  else fold_left (fun text r => replace [fst r] (snd r) text) replacements text.

(** [clean_text(text)] where [text] is a string or [None]. *)
Definition clean_text (text : option str) : option str :=
  match text with
  | None => None
  | Some s => Some (clean s)
  end.

(** The seven characters [clean_text] replaces. *)
Definition targets : list char := map fst replacements.

Definition has_target (s : str) : bool :=
  existsb (fun c => existsb (N.eqb c) targets) s.

(** ** Day records *)

(** The [day_info] dictionary: its five keys are set when it is created
    and no key is ever added or removed. *)
Record DayInfo := {
  icon : str;
  day : str;
  title : str;
  image : str;
  body : str
}.

Definition new_day_info : DayInfo :=
  {| icon := []; day := []; title := []; image := []; body := [] |}.

Definition set_day (v : str) (d : DayInfo) : DayInfo :=
  {| icon := icon d; day := v; title := title d; image := image d; body := body d |}.
Definition set_title (v : str) (d : DayInfo) : DayInfo :=
  {| icon := icon d; day := day d; title := v; image := image d; body := body d |}.
Definition set_body (v : str) (d : DayInfo) : DayInfo :=
  {| icon := icon d; day := day d; title := title d; image := image d; body := v |}.

(** What the body of a [for] loop hands back: the record to go on with,
    or [continue]. *)
Inductive flow :=
| Next (day_info : DayInfo)
| Continue.

(** ** [parse_cruise_itinerary_days] *)

Definition sea_day_body : str :=
  u "Day at sea - enjoy the ship's amenities and relax as you cruise to your next destination.".

Definition generic_body (title : str) : str :=
  u "Explore " ++ title ++ u " and enjoy the local attractions and culture.".

(** First try: [text-info] span and the [text-info-summary] span in it. *)
Definition first_try (content_wrap : ref) (description_text : str) : M str :=
  text_info <- find content_wrap (u "span") (Some (u "text-info")) ;;
  if truthy text_info then
    text_summary <- find text_info (u "span") (Some (u "text-info-summary")) ;;
    if truthy text_summary then get_text text_summary
    else ret description_text
  else ret description_text.

(** Second try: a [text-info-summary] span searched from the content
    wrapper. *)
Definition second_try (content_wrap : ref) (description_text : str) : M str :=
  if negb (nonempty description_text) then
    text_summary <- find content_wrap (u "span") (Some (u "text-info-summary")) ;;
    if truthy text_summary then get_text text_summary
    else ret description_text
  else ret description_text.

(** Third try: the text of the [descr] div once its [more] and [less]
    spans are decomposed. *)
Definition third_try (content_wrap : ref) (description_text : str) : M str :=
  if negb (nonempty description_text) then
    descr_div <- find content_wrap (u "div") (Some (u "descr")) ;;
    if truthy descr_div then
      elements <- find_all descr_div [u "span"] (Some [u "more"; u "less"]) true ;;
      for_each elements (fun element _ => decompose element) tt ;;;
      get_text descr_div
    else ret description_text
  else ret description_text.

(** Lines 134-156: [description_text] after the three tries. *)
Definition resolve_description (content_wrap : ref) : M str :=
  let description_text := [] in
  description_text <- first_try content_wrap description_text ;;
  description_text <- second_try content_wrap description_text ;;
  third_try content_wrap description_text.

(** Lines 110-121: the day number from the first block. *)
Definition cruise_day (divs : list ref) (day_info : DayInfo) : M flow :=
  first_div <- index divs 0 ;;
  day_h5 <- find first_div (u "h5") None ;;
  if truthy day_h5 then
    day_text <- get_text day_h5 ;;
    let day_match := Re.search_day day_text in
    if truthy day_match then
      d <- group day_match ;;
      ret (Next (set_day d day_info))
    else ret Continue
  else ret (Next day_info).

(** Lines 123-159: the title and the resolved body from the second
    block. *)
Definition cruise_location (divs : list ref) (day_info : DayInfo) : M DayInfo :=
  second_div <- index divs 1 ;;
  location_h5 <- find second_div (u "h5") None ;;
  day_info <- (if truthy location_h5 then
                 location_text <- get_text location_h5 ;;
                 ret (set_title (clean location_text) day_info)
               else ret day_info) ;;
  content_wrap <- find second_div (u "div") (Some (u "content-wrap")) ;;
  if truthy content_wrap then
    description_text <- resolve_description content_wrap ;;
    if nonempty description_text
    then ret (set_body (clean description_text) day_info)
    else ret day_info
  else ret day_info.

(** Lines 161-163: the special case of a day at sea. *)
Definition at_sea (day_info : DayInfo) : DayInfo :=
  if negb (nonempty (body day_info)) && str_eqb (title day_info) (u "At Sea")
  then set_body sea_day_body day_info
  else day_info.

(** Lines 106-163: what the loop body does before it decides whether to
    keep the record. *)
Definition cruise_scan (item : ref) : M flow :=
  let day_info := new_day_info in
  divs <- find_all item [u "div"] None false ;;
  if 2 <=? length divs then
    f <- cruise_day divs day_info ;;
    match f with
    | Continue => ret Continue
    | Next day_info =>
        day_info <- cruise_location divs day_info ;;
        ret (Next (at_sea day_info))
    end
  else ret (Next day_info).

(** Lines 165-171: keep the record when it has a day and a title. *)
Definition cruise_keep (day_info : DayInfo) (itinerary_items : list DayInfo)
    : list DayInfo :=
  if nonempty (day day_info) && nonempty (title day_info) then
    let day_info :=
      if negb (nonempty (body day_info))
      then set_body (generic_body (title day_info)) day_info
      else day_info in
    itinerary_items ++ [day_info]
  else itinerary_items.

(** The body of the loop over [day_items]. *)
Definition cruise_item (item : ref) (itinerary_items : list DayInfo)
    : M (list DayInfo) :=
  f <- cruise_scan item ;;
  match f with
  | Continue => ret itinerary_items
  | Next day_info => ret (cruise_keep day_info itinerary_items)
  end.

Definition parse_cruise_itinerary_days : M (list DayInfo) :=
  let itinerary_items := [] in
  itinerary_container <- find soup (u "div") (Some (u "grid-item-block-dates-accordion")) ;;
  itinerary_container <-
    (if negb (truthy itinerary_container)
     then find soup (u "div") (Some (u "accordion-block"))
     else ret itinerary_container) ;;
  if negb (truthy itinerary_container) then ret itinerary_items
  else
    day_items <- find_all itinerary_container [u "div"] (Some [u "date-list"]) true ;;
    for_each day_items cruise_item itinerary_items.

(** ** [parse_tour_itinerary_description] *)

(** [[s.strip() for s in text.split('.') if s.strip()]] *)
Definition sentences_of (text : str) : list str :=
  map strip (filter (fun s => nonempty (strip s)) (split 46%N text)).

Definition parse_tour_itinerary_description : M (list str) :=
  description_elem <-
    find soup (u "div") (Some (u "ao-clp-custom-tdp-itinerary__description")) ;;
  if truthy description_elem then
    text <- get_text description_elem ;;
    let text := clean text in
    let sentences := sentences_of text in
    ret [join (u ". ") sentences]
  else ret [[]].

(** ** [parse_tour_itinerary_days] *)

(** Lines 210-233: the day number and the title from the title block. *)
Definition tour_title (item : ref) (day_info : DayInfo) : M flow :=
  title_elem <- find item (u "div") (Some (u "js-ao-common-accordion__title")) ;;
  if truthy title_elem then
    title_text <- get_text title_elem ;;
    arrow_elem <- find title_elem (u "div") (Some (u "ao-common-accordion__arrow")) ;;
    title_text <-
      (if truthy arrow_elem then
         arrow_text <- get_text arrow_elem ;;
         ret (strip (replace arrow_text [] title_text))
       else ret title_text) ;;
    let title_text := clean title_text in
    let day_match := Re.search_day_colon title_text in
    if truthy day_match then
      d <- group day_match ;;
      let day_info := set_day d day_info in
      let clean_title := Re.sub_day_prefix title_text in
      ret (Next (set_title clean_title day_info))
    else ret Continue
  else ret Continue.

(** [[p.get_text(strip=True) for p in paragraphs]] *)
Definition texts_of (paragraphs : list ref) : M (list str) :=
  for_each paragraphs (fun p texts => t <- get_text p ;; ret (texts ++ [t])) [].

(** Lines 235-245: the body from the content block. *)
Definition tour_body (item : ref) (day_info : DayInfo) : M DayInfo :=
  content_elem <-
    find item (u "div") (Some (u "ao-common-accordion__bottom-content")) ;;
  if truthy content_elem then
    paragraphs <- find_all content_elem [u "p"] None true ;;
    body_text <-
      (if nonempty_list paragraphs then
         texts <- texts_of paragraphs ;;
         ret (join (u " ") texts)
       else get_text content_elem) ;;
    let body_text := clean body_text in
    ret (set_body body_text day_info)
  else ret day_info.

(** Lines 247-248: keep the record when it has a title and a body. *)
Definition tour_keep (day_info : DayInfo) (itinerary_items : list DayInfo)
    : list DayInfo :=
  if nonempty (title day_info) && nonempty (body day_info)
  then itinerary_items ++ [day_info]
  else itinerary_items.

(** The body of the loop over [day_items]. *)
Definition tour_item (item : ref) (itinerary_items : list DayInfo)
    : M (list DayInfo) :=
  let day_info := new_day_info in
  f <- tour_title item day_info ;;
  match f with
  | Continue => ret itinerary_items
  | Next day_info =>
      day_info <- tour_body item day_info ;;
      ret (tour_keep day_info itinerary_items)
  end.

Definition parse_tour_itinerary_days : M (list DayInfo) :=
  let itinerary_items := [] in
  itinerary_section <-
    find soup (u "section") (Some (u "ao-clp-custom-tdp-itinerary")) ;;
  if negb (truthy itinerary_section) then ret itinerary_items
  else
    day_items <-
      find_all itinerary_section [u "li"] (Some [u "js-ao-common-accordion"]) true ;;
    for_each day_items tour_item itinerary_items.

(** ** [scrape_content] *)

Record ItineraryResult := {
  summary : list str;
  itinerary : list DayInfo
}.

(** What [session.get] and [raise_for_status] come to for an address. *)
Inductive fetched :=
| Fetched (text : str)
| RequestException (message : str)
| Uncaught (class_name : str).

Section Orchestrator.

(** The collaborators of the orchestrator.  [robots_url] is the address
    [check_robots_txt] asks for, built by [urlparse] and [urljoin] from
    the page address, or [None] when [urlparse] raises [ValueError].
    [http_get] is [session.get] followed by [raise_for_status]: the text
    of the response, or the [RequestException] they raise, or an
    exception of another class, which [fetch_page] does not catch.
    [parse_html] is [BeautifulSoup(html_content, 'lxml')]. *)
Variable robots_url : str -> option str.
Variable http_get : str -> fetched.
Variable parse_html : str -> node.

(** [fetch_page]: only a [RequestException] is caught and wrapped. *)
Definition fetch_page (url : str) : result str :=
  match http_get url with
  | Fetched text => Ok text
  | RequestException message =>
      Raise (Exception (u "Failed to fetch page: " ++ message))
  | Uncaught class_name => Raise (TransportError class_name)
  end.

(** The result of the call and the addresses requested, in order. *)
Definition scrape_content (url : str) : result ItineraryResult * list str :=
  let scraper_type := determine_scraper_type url in
  match scraper_type with
  | None =>
      (Raise (Exception (u "URL is not a recognized Flight Centre cruise or tour URL")), [])
  | Some scraper_type =>
      match robots_url url with
      | None => (Raise ValueError, [])
      | Some robots =>
          (* [check_robots_txt] asks for the file and ignores the answer *)
          let requested := [robots; url] in
          match fetch_page url with
          | Raise e => (Raise e, requested)
          | Ok html_content =>
              let document := parse_html html_content in
              let extraction :=
                if str_eqb scraper_type (u "cruise") then
                  itinerary <- parse_cruise_itinerary_days ;;
                  ret {| summary := [[]]; itinerary := itinerary |}
                else
                  summary <- parse_tour_itinerary_description ;;
                  itinerary <- parse_tour_itinerary_days ;;
                  ret {| summary := summary; itinerary := itinerary |} in
              match extraction document with
              | Ok (result, _) => (Ok result, requested)
              | Raise e => (Raise e, requested)
              end
          end
      end
  end.

End Orchestrator.

(** ** [main]: what it computes from the address *)

(** Lines 307-317: [scraper_type] as the page works it out from the text
    of the input box, before the button is drawn.  The messages shown
    beside it are not part of the value. *)
Definition main_scraper_type (url : str) : option str :=
  let scraper_type := None in
  if nonempty url then
    if contains (u "cruises.flightcentre") url then Some (u "cruise")
    else if contains (u "tours.flightcentre") url then Some (u "tour")
    else scraper_type
  else scraper_type.

(** [l[-k]] for [k >= 1]. *)
Definition index_from_end {A} (l : list A) (k : nat) : result A :=
  match nth_error (rev l) (k - 1) with
  | Some a => Ok a
  | None => Raise IndexError
  end.

(** Lines 355-357: the part of the address that names the download.
    The condition of the conditional expression reads [[-2]] only when
    there are more than two pieces. *)
Definition filename_part (url scraper_type : str) : result str :=
  let pieces := split 47%N url in
  let chosen :=
    if 2 <? length pieces then
      match index_from_end pieces 2 with
      | Raise e => Raise e
      | Ok before_last =>
          if nonempty before_last then index_from_end pieces 2
          else index_from_end pieces 1
      end
    else index_from_end pieces 1 in
  match chosen with
  | Raise e => Raise e
  | Ok filename_part =>
      Ok (if negb (nonempty filename_part) then scraper_type else filename_part)
  end.

(** Line 362: the name of the downloaded file. *)
Definition download_file_name (url scraper_type : str) : result str :=
  match filename_part url scraper_type with
  | Raise e => Raise e
  | Ok part => Ok (scraper_type ++ u "_data_" ++ part ++ u ".json")
  end.

(* ================================================================== *)
(** * Vocabulary of the statements *)
(* ================================================================== *)

(** [m] run on [document] returns, without raising, a value and a
    document that satisfy [Q]. *)
Definition returns {A} (m : M A) (document : node)
    (Q : A -> node -> Prop) : Prop :=
  exists a document', m document = Ok (a, document') /\ Q a document'.

(** [sub] is a substring of [s]. *)
Definition occurs_in (sub s : str) : Prop :=
  exists before after, s = before ++ sub ++ after.

(** The first tag below [t] with the given name and class token. *)
Definition first_tag (name class_ : str) (t : node) : option path :=
  hd_error (matching (selects [name] (Some [class_])) (descendants t)).

(** The toggle buttons of a description: [more] and [less] spans. *)
Definition toggle : node -> bool :=
  selects [u "span"] (Some [u "more"; u "less"]).

(** [t] with every toggle button below it decomposed. *)
Fixpoint toggles_removed (t : node) : node :=
  match t with
  | Elem n c ks =>
      Elem n c (map (fun k => if toggle k then Gone else toggles_removed k) ks)
  | _ => t
  end.

(** The same for a node that may be a toggle button itself. *)
Definition without_toggles (t : node) : node :=
  if toggle t then Gone else toggles_removed t.

(** The first of the candidates that is not empty. *)
Fixpoint first_nonempty (candidates : list str) : str :=
  match candidates with
  | [] => []
  | c :: rest => if nonempty c then c else first_nonempty rest
  end.

(** The text of the tag at [p] below [w], or nothing without a tag. *)
Definition text_at (w : node) (p : option path) : str :=
  match p with
  | Some p => node_text (at_path w p)
  | None => []
  end.

(** The three places a cruise description is looked for in a content
    wrapper [w]. *)
Definition nested_summary (w : node) : str :=
  match first_tag (u "span") (u "text-info") w with
  | Some i =>
      text_at w (option_map (app i)
                   (first_tag (u "span") (u "text-info-summary") (at_path w i)))
  | None => []
  end.

Definition plain_summary (w : node) : str :=
  text_at w (first_tag (u "span") (u "text-info-summary") w).

Definition descr_text (w : node) : str :=
  match first_tag (u "div") (u "descr") w with
  | Some d => node_text (toggles_removed (at_path w d))
  | None => []
  end.

(** Tier (b) as the specification words it: the text of the first
    [text-info-summary] span that is a child of the content wrapper
    itself, a top-level span. *)
Definition top_level_summary (w : node) : str :=
  text_at w
    (hd_error (matching (selects [u "span"] (Some [u "text-info-summary"]))
                 (children w))).

(** The normalization of the specification, character by character:
    en dash and em dash to a hyphen, the single quotation marks to an
    apostrophe, the double quotation marks to a straight quote, the
    horizontal ellipsis to three full stops, any other character to
    itself. *)
Definition ascii_for (c : char) : str :=
  if N.eqb c 8211 then [45%N]
  else if N.eqb c 8212 then [45%N]
  else if N.eqb c 8217 then [39%N]
  else if N.eqb c 8216 then [39%N]
  else if N.eqb c 8220 then [34%N]
  else if N.eqb c 8221 then [34%N]
  else if N.eqb c 8230 then [46; 46; 46]%N
  else [c].

Definition normalized_text (s : str) : str := flat_map ascii_for s.

(** The parts with [sep] between each two of them. *)
Definition with_separator (sep : str) (parts : list str) : str :=
  match parts with
  | [] => []
  | p :: rest => p ++ flat_map (fun q => sep ++ q) rest
  end.

(** [pieces] are the pieces of [text] between its full stops: none has
    a full stop, and with a full stop between each two of them they
    make up the text. *)
Definition split_at_dots (text : str) (pieces : list str) : Prop :=
  pieces <> [] /\
  Forall (fun piece => ~ In 46%N piece) pieces /\
  with_separator [46%N] pieces = text.

(** [t] is [s] trimmed: [s] without the white space at its two ends. *)
Definition trimmed_of (s t : str) : Prop :=
  exists before after,
    s = before ++ t ++ after /\
    forallb is_space before = true /\ forallb is_space after = true /\
    match t with [] => True | c :: _ => is_space c = false end /\
    match rev t with [] => True | c :: _ => is_space c = false end.

(** The non-empty trimmed fragments between the full stops of a text. *)
Definition fragments (text : str) : list str :=
  filter nonempty (map strip (split 46%N text)).

(** A record with a day, a title and a body. *)
Definition complete (r : DayInfo) : Prop :=
  nonempty (day r) = true /\ nonempty (title r) = true /\ nonempty (body r) = true.

(** The message of the exception for an address of neither kind. *)
Definition unrecognized_url : exn :=
  Exception (u "URL is not a recognized Flight Centre cruise or tour URL").

(** One character of a text when [c] is replaced by [new]. *)
Definition put (c : char) (new : str) (x : char) : str :=
  if N.eqb c x then new else [x].

(** What becomes of one character under the whole dictionary. *)
Definition normal (x : char) : str :=
  fold_left (fun text r => replace [fst r] (snd r) text) replacements [x].

(** One of the seven characters [clean_text] replaces. *)
Definition is_target (x : char) : bool := existsb (N.eqb x) targets.

(** The descendants of the tags [ks], the first of which is child
    number [i] of its parent. *)
Fixpoint descendants_from (i : nat) (ks : list node) : list (path * node) :=
  match ks with
  | [] => []
  | k :: ks' =>
      ([i], k) :: map (under i) (descendants k) ++ descendants_from (S i) ks'
  end.

(** [after] is [before] up to toggle buttons that were decomposed: the
    two are the same once every toggle button is taken out, and nothing
    has changed when [before] had none. *)
Definition only_toggles_lost (before after : node) : Prop :=
  without_toggles after = without_toggles before /\
  (without_toggles before = before -> after = before).

(** A place where [decompose] can only take a toggle button away. *)
Definition fading (t : node) (p : path) : Prop :=
  toggle (at_path t p) = true \/ at_path t p = Gone.

(** What a tour row yields when it is the whole document. *)
Definition row_alone (row : node) : list DayInfo :=
  match tour_item soup [] row with
  | Ok (items, _) => items
  | Raise _ => []
  end.

(** What a cruise day item of [document] yields on an empty list. *)
Definition day_records (document : node) (item : path) : list DayInfo :=
  match cruise_item (Some item) [] document with
  | Ok (items, _) => items
  | Raise _ => []
  end.

(** A record whose reserved fields are empty and whose day is made of
    decimal digits. *)
Definition shaped (r : DayInfo) : Prop :=
  icon r = [] /\ image r = [] /\ forallb is_digit (day r) = true.

(** The exception of [fetch_page]. *)
Definition fetch_failed (cause : str) : exn :=
  Exception (u "Failed to fetch page: " ++ cause).

(** The itinerary container of a cruise page: the dates-accordion block
    or, without one, the accordion block. *)
Definition cruise_container (document : node) : option path :=
  match first_tag (u "div") (u "grid-item-block-dates-accordion") document with
  | Some c => Some c
  | None => first_tag (u "div") (u "accordion-block") document
  end.

(** The day items of a cruise page, in document order. *)
Definition cruise_day_items (document : node) : list path :=
  match cruise_container document with
  | Some c =>
      map (app c)
        (matching (selects [u "div"] (Some [u "date-list"]))
           (descendants (at_path document c)))
  | None => []
  end.

(** The accordion rows of the itinerary section of a tour page, in
    document order. *)
Definition tour_rows (document : node) : list path :=
  match first_tag (u "section") (u "ao-clp-custom-tdp-itinerary") document with
  | Some sec =>
      map (app sec)
        (matching (selects [u "li"] (Some [u "js-ao-common-accordion"]))
           (descendants (at_path document sec)))
  | None => []
  end.

(** A record whose title and body have none of the characters
    [clean_text] replaces. *)
Definition tidy (r : DayInfo) : Prop :=
  has_target (title r) = false /\ has_target (body r) = false.

(** [t] with the node at [p] replaced by [v]; a path that leads nowhere
    changes nothing. *)
Fixpoint put_at (t : node) (p : path) (v : node) : node :=
  match p with
  | [] => v
  | i :: p' =>
      match t with
      | Elem n c ks => Elem n c (alter_nth (fun k => put_at k p' v) i ks)
      | _ => t
      end
  end.

(** A [descr] div. *)
Definition descr : node -> bool := selects [u "div"] (Some [u "descr"]).

(** [after] comes from [before] by taking the toggle buttons out of
    [descr] divs, one [descr] div at a time, and by nothing else. *)
Inductive descr_cleared : node -> node -> Prop :=
| cleared_none (t : node) : descr_cleared t t
| cleared_one (t : node) (p : path) (after : node) :
    descr (at_path t p) = true ->
    descr_cleared (put_at t p (toggles_removed (at_path t p))) after ->
    descr_cleared t after.

(** The document after the description of the content wrapper at [cw]
    was resolved: as it was when one of the two summaries has text, and
    otherwise with the toggle buttons of the first [descr] div of the
    wrapper, if there is one, taken out of that div. *)
Definition after_fallback (document : node) (cw : path) : node :=
  let w := at_path document cw in
  if nonempty (nested_summary w) || nonempty (plain_summary w) then document
  else
    match first_tag (u "div") (u "descr") w with
    | Some d =>
        put_at document (cw ++ d) (toggles_removed (at_path document (cw ++ d)))
    | None => document
    end.

(** No [descr] div of the document has a toggle button below it. *)
Definition descr_divs_plain (document : node) : bool :=
  forallb
    (fun x =>
       negb (descr (snd x)) ||
       negb (nonempty_list (matching toggle (descendants (snd x)))))
    (([], document) :: descendants document).

(** ** Sample documents *)

Definition tag (name : String.string) (classes : list String.string)
    (contents : list node) : node :=
  Elem (u name) (map u classes) contents.
Arguments tag name%_string_scope classes%_list_scope contents%_list_scope.

Definition text (s : String.string) : node := Txt (u s).
Arguments text s%_string_scope.

Module Samples.
Local Open Scope string_scope.

(** One cruise day, as the itinerary of a cruise page lists it. *)
Definition cruise_day_item (day_heading location : String.string)
    (wrapped : list node) : node :=
  tag "div" ["date-list"] [
    tag "div" ["col-date"] [ tag "h5" [] [ text day_heading ] ];
    tag "div" ["col-info"] [
      tag "h5" [] [ text location ];
      tag "div" ["content-wrap"] wrapped ] ].

(** A cruise page: a port with a summary in the original markup and a
    day at sea with no description. *)
Definition cruise_page : node :=
  tag "[document]" [] [
    tag "div" ["grid-item-block-dates-accordion"] [
      cruise_day_item "Day 3" "Nassau" [
        tag "span" ["text-info"] [
          tag "span" ["text-info-summary"] [ text "Explore the beaches." ] ] ];
      cruise_day_item "Day 4" "At Sea" [] ] ].

(** Where the nodes of [cruise_page] are. *)
Definition nassau_item : path := [0; 0].
Definition nassau_block : path := [0; 0; 1].
Definition at_sea_item : path := [0; 1].

(** A cruise page whose description sits in a [descr] div next to its
    toggle buttons. *)
Definition toggle_page : node :=
  tag "[document]" [] [
    tag "div" ["accordion-block"] [
      cruise_day_item "Day 5" "Cozumel" [
        tag "div" ["descr"] [
          text "Snorkel the reef.";
          tag "span" ["more"] [ text "More" ];
          tag "span" ["less"] [ text "Less" ] ] ] ] ].

(** A cruise page whose content wrapper has an empty summary nested in
    its [text-info] span, and after it a summary span of its own. *)
Definition shadowed_page : node :=
  tag "[document]" [] [
    tag "div" ["grid-item-block-dates-accordion"] [
      cruise_day_item "Day 3" "Nassau" [
        tag "span" ["text-info"] [
          tag "span" ["text-info-summary"] [] ];
        tag "span" ["text-info-summary"] [ text "Explore the beaches." ] ] ] ].

Definition shadowed_item : path := [0; 0].
Definition shadowed_wrap : path := [0; 0; 1; 1].

(** One accordion row of a tour page. *)
Definition tour_row (heading : String.string) (content : list node) : node :=
  tag "li" ["js-ao-common-accordion"] [
    tag "div" ["js-ao-common-accordion__title"] [ text heading ];
    tag "div" ["ao-common-accordion__bottom-content"] content ].

Definition tour_page : node :=
  tag "[document]" [] [
    tag "div" ["ao-clp-custom-tdp-itinerary__description"] [
      text "  From Hanoi to Saigon.  Ten days by rail . " ];
    tag "section" ["ao-clp-custom-tdp-itinerary"] [
      tag "ul" [] [
        tour_row "Day 1: Hanoi" [ tag "p" [] [ text "Arrive in Hanoi." ] ];
        tour_row "Day 2: Hoi An" [
          tag "p" [] [ text "Visit the old town." ];
          tag "p" [] [ text "Try local food." ] ];
        tour_row "Day 3: Hue" [];
        tag "li" ["js-ao-common-accordion"] [
          tag "div" ["js-ao-common-accordion__title"] [
            text "Day 4: Saigon";
            tag "div" ["ao-common-accordion__arrow"] [ text "v" ] ];
          tag "div" ["ao-common-accordion__bottom-content"] [
            Txt (List.app (u "Free day in Saigon") [8230%N]) ] ];
        tour_row "Airport transfers" [ tag "p" [] [ text "Included." ] ];
        tag "li" ["js-ao-common-accordion"] [
          tag "p" [] [ text "Terms and conditions apply." ] ] ] ] ].

(** Where the rows of [tour_page] are. *)
Definition hoi_an_row : path := [1; 0; 1].
Definition untitled_row : path := [1; 0; 5].

(** A cruise page with a day that has lost its second block. *)
Definition sparse_page : node :=
  tag "[document]" [] [
    tag "div" ["accordion-block"] [
      tag "div" ["date-list"] [
        tag "div" ["col-date"] [ tag "h5" [] [ text "Day 1" ] ] ];
      cruise_day_item "Day 2" "Miami" [] ] ].

Definition sparse_item : path := [0; 0].

(** A tour page whose description has typographic characters and
    white space around its sentences. *)
Definition dashed_page : node :=
  tag "[document]" [] [
    tag "div" ["ao-clp-custom-tdp-itinerary__description"] [
      Txt (List.app (u "  Hanoi ")
             (8211%N :: List.app (u " Saigon.  Ten days")
                         (8230%N :: u " "))) ] ].

(** A tour page on which a day row carries a word in front of its day
    number. *)
Definition optional_day_page : node :=
  tag "[document]" [] [
    tag "section" ["ao-clp-custom-tdp-itinerary"] [
      tag "ul" [] [
        tour_row "Optional Day 2: Hoi An" [
          tag "p" [] [ text "Visit the old town." ] ] ] ] ].

(** A page with no itinerary at all. *)
Definition plain_page : node :=
  tag "[document]" [] [ tag "p" [] [ text "Page not found" ] ].

Definition record (d t b : String.string) : DayInfo :=
  {| icon := []; day := u d; title := u t; image := []; body := u b |}.
Arguments record (d t b)%_string_scope.

(** A record that has no body yet. *)
Definition bare (d t : String.string) : DayInfo :=
  {| icon := []; day := u d; title := u t; image := []; body := [] |}.
Arguments bare (d t)%_string_scope.

End Samples.

(* ================================================================== *)
(** * Strings *)
(* ================================================================== *)

Lemma str_eqb_eq (a b : str) : str_eqb a b = true <-> a = b.
Proof.
  revert b; induction a as [|x a IH]; intros [|y b]; simpl;
    try (split; [discriminate | discriminate]); try tauto.
  rewrite andb_true_iff, N.eqb_eq, IH.
  split; [intros [-> ->]; reflexivity | intros [= -> ->]; auto].
Qed.

Lemma startswith_app (p s : str) : startswith p (p ++ s) = true.
Proof.
  induction p as [|x p IH]; simpl; [reflexivity|].
  now rewrite N.eqb_refl, IH.
Qed.

Lemma startswith_inv (p s : str) :
  startswith p s = true -> exists rest, s = p ++ rest.
Proof.
  revert s; induction p as [|x p IH]; intros s H; simpl in *.
  - now exists s.
  - destruct s as [|y s]; [discriminate|].
    apply andb_true_iff in H as [Hxy Hp]. apply N.eqb_eq in Hxy; subst y.
    destruct (IH _ Hp) as [rest ->]. now exists rest.
Qed.

Lemma contains_unfold (sub s : str) :
  contains sub s
  = startswith sub s || match s with [] => false | _ :: s' => contains sub s' end.
Proof. destruct s; reflexivity. Qed.

(** [sub in s] holds exactly when [sub] is a substring of [s]. *)
Lemma contains_occurs (sub s : str) :
  contains sub s = true <-> occurs_in sub s.
Proof.
  split.
  - induction s as [|c s IH]; simpl; rewrite orb_true_iff; intros [H|H].
    + apply startswith_inv in H as [rest ->]. now exists [], rest.
    + discriminate.
    + apply startswith_inv in H as [rest ->]. now exists [], rest.
    + destruct (IH H) as (b & a & ->). now exists (c :: b), a.
  - intros (b & a & ->). induction b as [|c b IH].
    + change ([] ++ sub ++ a) with (sub ++ a).
      now rewrite contains_unfold, startswith_app.
    + change ((c :: b) ++ sub ++ a) with (c :: (b ++ sub ++ a)).
      rewrite contains_unfold, IH. apply orb_true_r.
Qed.

Lemma contains_absent (sub s : str) :
  contains sub s = false <-> ~ occurs_in sub s.
Proof.
  rewrite <- contains_occurs. destruct (contains sub s); split; intuition congruence.
Qed.

(** ** Replacing one character *)

Lemma replace_char (c : char) (new s : str) :
  replace [c] new s = flat_map (put c new) s.
Proof.
  unfold replace. induction s as [|x s IH]; simpl; [reflexivity|].
  unfold put at 1. rewrite andb_true_r.
  destruct (N.eqb c x); simpl; now rewrite IH.
Qed.

Lemma flat_map_twice {A} (f g : A -> list A) (l : list A) :
  flat_map g (flat_map f l) = flat_map (fun x => flat_map g (f x)) l.
Proof.
  induction l as [|x l IH]; simpl; [reflexivity|].
  now rewrite flat_map_app, IH.
Qed.

Lemma flat_map_single {A} (f : A -> list A) (l : list A) :
  (forall x, In x l -> f x = [x]) -> flat_map f l = l.
Proof.
  induction l as [|x l IH]; simpl; intros H; [reflexivity|].
  rewrite H by auto. simpl. f_equal. apply IH. auto.
Qed.

Lemma replace_all_chars (rs : list (char * str)) (s : str) :
  fold_left (fun text r => replace [fst r] (snd r) text) rs s
  = flat_map (fun x => fold_left (fun text r => replace [fst r] (snd r) text) rs [x]) s.
Proof.
  revert s; induction rs as [|r rs IH]; intros s; cbn [fold_left].
  - symmetry. apply flat_map_single. reflexivity.
  - rewrite IH, replace_char, flat_map_twice.
    apply flat_map_ext. intros x.
    rewrite (IH (replace _ _ [x])), replace_char. cbn [flat_map].
    now rewrite app_nil_r.
Qed.

Lemma clean_normal (s : str) : clean s = flat_map normal s.
Proof.
  unfold clean. destruct s as [|x s]; [reflexivity|].
  cbn [nonempty negb]. apply replace_all_chars.
Qed.

Lemma normal_other (x : char) : is_target x = false -> normal x = [x].
Proof.
  unfold is_target, targets, replacements. cbn [map fst existsb].
  rewrite !orb_false_iff. intros (H1 & H2 & H3 & H4 & H5 & H6 & H7 & _).
  unfold normal, replacements. cbn [fold_left fst snd].
  rewrite !replace_char. cbn [flat_map]. unfold put.
  rewrite (N.eqb_sym _ x), H1. cbn [app flat_map].
  rewrite (N.eqb_sym _ x), H2. cbn [app flat_map].
  rewrite (N.eqb_sym _ x), H3. cbn [app flat_map].
  rewrite (N.eqb_sym _ x), H4. cbn [app flat_map].
  rewrite (N.eqb_sym _ x), H5. cbn [app flat_map].
  rewrite (N.eqb_sym _ x), H6. cbn [app flat_map].
  rewrite (N.eqb_sym _ x), H7. reflexivity.
Qed.

Lemma normal_clear (x y : char) : In y (normal x) -> is_target y = false.
Proof.
  destruct (is_target x) eqn:Hx.
  - unfold is_target, targets, replacements in Hx. cbn [map fst existsb] in Hx.
    rewrite !orb_true_iff in Hx.
    destruct Hx as [H|[H|[H|[H|[H|[H|[H|H]]]]]]]; try discriminate;
      apply N.eqb_eq in H; subst x; vm_compute;
      intuition (subst; reflexivity).
  - rewrite (normal_other _ Hx). intros [<-|[]]. exact Hx.
Qed.

Lemma clean_clean (s : str) : clean (clean s) = clean s.
Proof.
  rewrite !clean_normal, flat_map_twice. apply flat_map_ext. intros x.
  apply flat_map_single. intros y Hy. apply normal_other.
  exact (normal_clear _ _ Hy).
Qed.

Lemma has_target_false (s : str) :
  has_target s = false -> forall x, In x s -> is_target x = false.
Proof.
  unfold has_target. intros H x Hx.
  destruct (is_target x) eqn:E; [|reflexivity].
  rewrite <- H. symmetry. apply existsb_exists. now exists x.
Qed.

Lemma clean_unchanged (s : str) : has_target s = false -> clean s = s.
Proof.
  intros H. rewrite clean_normal. apply flat_map_single.
  intros x Hx. apply normal_other. exact (has_target_false _ H _ Hx).
Qed.

(* ================================================================== *)
(** * Rules for computations over the document *)
(* ================================================================== *)

Section Rules.
Context {A : Type}.
Implicit Types (document : node) (Q : A -> node -> Prop).

Lemma returns_ret (a : A) document Q :
  Q a document -> returns (ret a) document Q.
Proof. intros H. exists a, document. auto. Qed.

Lemma returns_bind {B} (m : M B) (k : B -> M A) document Q :
  returns m document (fun b document' => returns (k b) document' Q) ->
  returns (bind m k) document Q.
Proof.
  intros (b & d1 & E1 & a & d2 & E2 & H).
  exists a, d2. unfold bind. now rewrite E1.
Qed.

Lemma returns_weaken (m : M A) document (Q Q' : A -> node -> Prop) :
  returns m document Q ->
  (forall a document', Q a document' -> Q' a document') ->
  returns m document Q'.
Proof. intros (a & d & E & H) HQ. exists a, d. auto. Qed.

Lemma returns_index (l : list A) (i : nat) (a : A) document Q :
  nth_error l i = Some a -> Q a document -> returns (index l i) document Q.
Proof. intros E H. unfold index. rewrite E. now apply returns_ret. Qed.

End Rules.

Lemma returns_find (p : path) (name : str) (class_ : option str) document
    (Q : ref -> node -> Prop) :
  Q (option_map (app p)
       (hd_error (matching (selects [name] (option_map (fun c => [c]) class_))
                           (descendants (at_path document p))))) document ->
  returns (find (Some p) name class_) document Q.
Proof. intros H. eexists _, _. split; [reflexivity | exact H]. Qed.

Lemma returns_find_all (p : path) (names : list str)
    (class_ : option (list str)) (recursive : bool) document
    (Q : list ref -> node -> Prop) :
  Q (map (fun q => Some (p ++ q))
       (matching (selects names class_)
          (if recursive then descendants (at_path document p)
           else children (at_path document p)))) document ->
  returns (find_all (Some p) names class_ recursive) document Q.
Proof. intros H. eexists _, _. split; [reflexivity | exact H]. Qed.

Lemma returns_get_text (p : path) document (Q : str -> node -> Prop) :
  Q (node_text (at_path document p)) document ->
  returns (get_text (Some p)) document Q.
Proof. intros H. eexists _, _. split; [reflexivity | exact H]. Qed.

Lemma returns_decompose (p : path) document (Q : unit -> node -> Prop) :
  Q tt (remove_at document p) -> returns (decompose (Some p)) document Q.
Proof. intros H. eexists _, _. split; [reflexivity | exact H]. Qed.

Lemma returns_group (m : Re.Match) document (Q : str -> node -> Prop) :
  Q (Re.group1 m) document -> returns (group (Some m)) document Q.
Proof. intros H. now apply returns_ret. Qed.

(** A loop keeps what each of its rounds keeps. *)
Lemma returns_for_each {X S} (Inv : S -> node -> Prop) (l : list X)
    (body : X -> S -> M S) :
  (forall x acc document, In x l -> Inv acc document ->
     returns (body x acc) document Inv) ->
  forall acc document, Inv acc document ->
    returns (for_each l body acc) document Inv.
Proof.
  induction l as [|x l IH]; intros Hbody acc document H; cbn [for_each].
  - now apply returns_ret.
  - apply returns_bind.
    apply returns_weaken with (Q := Inv); [apply Hbody; simpl; auto|].
    intros acc' document' H'. apply IH; [|exact H'].
    intros; apply Hbody; simpl; auto.
Qed.

(** One step of a computation: the rule of its head. *)
Ltac step :=
  first [ apply returns_bind
        | apply returns_ret
        | apply returns_find
        | apply returns_find_all
        | apply returns_get_text
        | apply returns_decompose
        | apply returns_group ];
  cbv beta.

Ltac steps := repeat step.

(** ** Tags found by a search *)

Lemma in_found (p : path) (l : list path) (x : ref) :
  In x (map (fun q => Some (p ++ q)) l) -> exists q, x = Some q.
Proof. rewrite in_map_iff. intros (q & <- & _). now exists (p ++ q). Qed.

(* ================================================================== *)
(** * The day number captured by the patterns *)
(* ================================================================== *)

Lemma spaces_then_digits_group (k : nat) (r : str) (m : Re.Match) :
  Re.spaces_then_digits k r = Some m -> nonempty (Re.group1 m) = true.
Proof.
  induction k as [|k IH]; cbn [Re.spaces_then_digits]; [discriminate|].
  destruct (nonempty (take_while is_digit (skipn (S k) r))) eqn:E; [|exact IH].
  intros [= <-]. exact E.
Qed.

Lemma search_day_group (s : str) (m : Re.Match) :
  Re.search_day s = Some m -> nonempty (Re.group1 m) = true.
Proof.
  induction s as [|c s IH]; cbn [Re.search_day].
  - unfold Re.match_day. simpl. discriminate.
  - destruct (Re.match_day (c :: s)) as [m'|] eqn:E; [|exact IH].
    intros [= <-]. unfold Re.match_day in E.
    destruct (Re.after_literal (u "Day") (c :: s)); [|discriminate].
    exact (spaces_then_digits_group _ _ E).
Qed.

Lemma digits_then_colon_kept (j : nat) (r : str) (n : nat) :
  Re.digits_then_colon j r = Some n -> 1 <= n /\ nth_error r n = Some 58%N.
Proof.
  induction j as [|j IH]; cbn [Re.digits_then_colon]; [discriminate|].
  destruct (nth_error r (S j)) as [c|] eqn:E; [|exact IH].
  destruct (N.eqb_spec c 58); [|exact IH].
  intros [= <-]. subst c. split; [lia | exact E].
Qed.

Lemma match_day_colon_digits (s digits rest : str) :
  Re.match_day_colon s = Some (digits, rest) -> nonempty digits = true.
Proof.
  unfold Re.match_day_colon.
  destruct (Re.after_literal (u "Day ") s) as [r|]; [|discriminate].
  destruct (Re.digits_then_colon _ r) as [n|] eqn:E; [|discriminate].
  intros [= <- _]. apply digits_then_colon_kept in E as [Hn Hc].
  destruct n; [lia|]. destruct r; [discriminate|]. reflexivity.
Qed.

Lemma search_day_colon_group (s : str) (m : Re.Match) :
  Re.search_day_colon s = Some m -> nonempty (Re.group1 m) = true.
Proof.
  assert (Hhere : forall s m, match Re.match_day_colon s with
                              | Some (digits, _) => Some {| Re.group1 := digits |}
                              | None => None
                              end = Some m -> nonempty (Re.group1 m) = true).
  { clear. intros s m. destruct (Re.match_day_colon s) as [[d rest]|] eqn:E;
      [|discriminate]. intros [= <-]. exact (match_day_colon_digits _ E). }
  induction s as [|c s IH]; cbn [Re.search_day_colon].
  - specialize (Hhere [] m). destruct (Re.match_day_colon []) as [[d rest]|];
      [exact Hhere | discriminate].
  - specialize (Hhere (c :: s) m).
    destruct (Re.match_day_colon (c :: s)) as [[d rest]|]; [exact Hhere | exact IH].
Qed.

(* ================================================================== *)
(** * The tour extractor, one row at a time *)
(* ================================================================== *)

Lemma tour_title_spec (item : path) (day_info : DayInfo) (document : node) :
  returns (tour_title (Some item) day_info) document
    (fun f document' =>
       document' = document /\
       match f with
       | Continue => True
       | Next d => nonempty (day d) = true /\ body d = body day_info
       end).
Proof.
  unfold tour_title. step. step.
  destruct (option_map _ _) as [title_elem|]; cbn [truthy]; [|now step].
  step. step. step. step.
  set (arrow := option_map _ _). clearbody arrow.
  apply returns_bind.
  apply returns_weaken with (Q := fun _ document' => document' = document).
  { destruct arrow as [a|]; cbn [truthy]; steps; reflexivity. }
  intros title_text ? ->.
  destruct (Re.search_day_colon (clean title_text)) as [m|] eqn:E;
    cbn [truthy]; [|now step].
  steps. split; [reflexivity|]. split; [|reflexivity].
  exact (search_day_colon_group _ E).
Qed.

Lemma texts_of_spec (p : path) (l : list path) (document : node) :
  returns (texts_of (map (fun q => Some (p ++ q)) l)) document
    (fun _ document' => document' = document).
Proof.
  unfold texts_of.
  apply returns_for_each
    with (Inv := fun (_ : list str) document' => document' = document);
    [|reflexivity].
  intros x acc ? Hx ->. destruct (in_found _ _ _ Hx) as [q ->]. now steps.
Qed.

Lemma tour_body_spec (item : path) (day_info : DayInfo) (document : node) :
  returns (tour_body (Some item) day_info) document
    (fun d document' =>
       document' = document /\ day d = day day_info /\ title d = title day_info).
Proof.
  unfold tour_body. step. step.
  destruct (option_map _ _) as [content|]; cbn [truthy]; [|now steps].
  step. step. apply returns_bind.
  apply returns_weaken with (Q := fun _ document' => document' = document).
  - destruct (nonempty_list _); [|now steps].
    step. eapply returns_weaken; [apply texts_of_spec|].
    intros texts ? ->. now steps.
  - intros body_text ? ->. now steps.
Qed.

Lemma tour_keep_spec (day_info : DayInfo) (items : list DayInfo) :
  nonempty (day day_info) = true ->
  tour_keep day_info items = items \/
  tour_keep day_info items = items ++ [day_info] /\ complete day_info.
Proof.
  intros Hd. unfold tour_keep, complete.
  destruct (nonempty (title day_info)), (nonempty (body day_info)); simpl; auto.
Qed.

Lemma tour_item_spec (item : path) (items : list DayInfo) (document : node) :
  returns (tour_item (Some item) items) document
    (fun items' document' =>
       document' = document /\
       (items' = items \/ exists r, items' = items ++ [r] /\ complete r)).
Proof.
  unfold tour_item. apply returns_bind.
  eapply returns_weaken; [apply tour_title_spec|].
  intros [d|] ? [-> H]; [|steps; auto].
  destruct H as [Hd _]. apply returns_bind.
  eapply returns_weaken; [apply tour_body_spec|].
  intros d' ? (-> & Hd' & _). step. split; [reflexivity|].
  rewrite <- Hd' in Hd. destruct (tour_keep_spec d' items Hd) as [->|[-> Hc]]; eauto.
Qed.

(* ================================================================== *)
(** * Paths, decomposed nodes and toggle buttons *)
(* ================================================================== *)

Lemma node_nested_ind (P : node -> Prop) :
  (forall s, P (Txt s)) ->
  P Gone ->
  (forall n c ks, Forall P ks -> P (Elem n c ks)) ->
  forall t, P t.
Proof.
  intros HT HG HE. fix IH 1. intros [s|n c ks|].
  - apply HT.
  - apply HE. induction ks as [|k ks IHks]; constructor; [apply IH | exact IHks].
  - apply HG.
Qed.

Lemma descendants_elem (n : str) (c : list str) (ks : list node) :
  descendants (Elem n c ks) = descendants_from 0 ks.
Proof.
  cbn [descendants]. generalize 0.
  induction ks as [|k ks IH]; intros i; cbn [descendants_from]; [reflexivity|].
  now rewrite IH.
Qed.

Lemma at_path_gone (p : path) : at_path Gone p = Gone.
Proof. destruct p; reflexivity. Qed.

Lemma at_path_app (t : node) (p q : path) :
  at_path t (p ++ q) = at_path (at_path t p) q.
Proof.
  revert t; induction p as [|i p IH]; intros t; [reflexivity|].
  cbn [app at_path]. destruct t as [s|n c ks|]; try now rewrite at_path_gone.
  destruct (nth_error ks i); [apply IH | now rewrite at_path_gone].
Qed.

Lemma remove_at_gone (p : path) : remove_at Gone p = Gone.
Proof. destruct p; reflexivity. Qed.

Lemma nth_error_alter_nth (f : node -> node) (i j : nat) (ks : list node) :
  nth_error (alter_nth f i ks) j
  = if Nat.eqb i j then option_map f (nth_error ks j) else nth_error ks j.
Proof.
  revert i j; induction ks as [|k ks IH]; intros [|i] [|j]; cbn; try reflexivity.
  - now destruct (Nat.eqb _ _).
  - apply IH.
Qed.

Lemma alter_nth_same (f : node -> node) (i : nat) (ks : list node) :
  (forall k, nth_error ks i = Some k -> f k = k) -> alter_nth f i ks = ks.
Proof.
  revert i; induction ks as [|k ks IH]; intros [|i] H; cbn; try reflexivity.
  - now rewrite H.
  - f_equal. apply IH. exact H.
Qed.

Lemma alter_nth_twice (f g : node -> node) (i : nat) (ks : list node) :
  alter_nth g i (alter_nth f i ks) = alter_nth (fun k => g (f k)) i ks.
Proof.
  revert i; induction ks as [|k ks IH]; intros [|i]; cbn; try reflexivity.
  now rewrite IH.
Qed.

Lemma alter_nth_app (f : node -> node) (pre : list node) (k : node)
    (ks : list node) :
  alter_nth f (length pre) (pre ++ k :: ks) = pre ++ f k :: ks.
Proof. induction pre as [|x pre IH]; cbn; [reflexivity | now rewrite IH]. Qed.

Lemma map_alter_nth {B} (g : node -> B) (f : node -> node) (i : nat)
    (ks : list node) :
  (forall k, nth_error ks i = Some k -> g (f k) = g k) ->
  map g (alter_nth f i ks) = map g ks.
Proof.
  revert i; induction ks as [|k ks IH]; intros [|i] H; cbn; try reflexivity.
  - now rewrite H.
  - f_equal. apply IH. exact H.
Qed.

(** Decomposing a node that is already gone, or a place that does not
    exist, changes nothing. *)
Lemma remove_at_nothing (t : node) (p : path) :
  at_path t p = Gone -> remove_at t p = t.
Proof.
  revert t; induction p as [|i p IH]; intros t H; cbn in *; [now subst|].
  destruct t as [s|n c ks|]; try reflexivity.
  f_equal. apply alter_nth_same. intros k Hk. rewrite Hk in H. now apply IH.
Qed.

(** A search filter reads the name and the classes of a tag only. *)
Lemma toggle_contents (n : str) (c : list str) (ks ks' : list node) :
  toggle (Elem n c ks) = toggle (Elem n c ks').
Proof. reflexivity. Qed.

(** After a node is decomposed, any other place holds what it held, up
    to its contents, or is gone. *)
Lemma toggle_after_remove (q p : path) (t : node) :
  toggle (at_path (remove_at t q) p) = toggle (at_path t p) \/
  at_path (remove_at t q) p = Gone.
Proof.
  revert p t; induction q as [|i q IH]; intros p t.
  - right. apply at_path_gone.
  - cbn [remove_at]. destruct t as [s|n c ks|]; auto.
    destruct p as [|j p]; [left; reflexivity|].
    cbn [at_path]. rewrite nth_error_alter_nth.
    destruct (Nat.eqb i j); auto.
    destruct (nth_error ks j) as [k|]; cbn [option_map]; auto.
Qed.

Lemma gone_after_remove (q p : path) (t : node) :
  at_path t p = Gone -> at_path (remove_at t q) p = Gone.
Proof.
  revert p t; induction q as [|i q IH]; intros p t H.
  - apply at_path_gone.
  - cbn [remove_at]. destruct t as [s|n c ks|]; auto.
    destruct p as [|j p]; [discriminate|]. cbn [at_path] in *.
    rewrite nth_error_alter_nth. destruct (Nat.eqb i j); auto.
    destruct (nth_error ks j) as [k|]; cbn [option_map]; auto.
Qed.

Lemma fading_after_remove (q p : path) (t : node) :
  fading t p -> fading (remove_at t q) p.
Proof.
  unfold fading. intros [H|H].
  - destruct (toggle_after_remove q p t) as [E|E]; [left; congruence | now right].
  - right. now apply gone_after_remove.
Qed.

Lemma without_toggles_elem (n : str) (c : list str) (ks : list node) :
  toggles_removed (Elem n c ks) = Elem n c (map without_toggles ks).
Proof. reflexivity. Qed.

(** Decomposing a toggle button is not seen once the toggle buttons are
    taken out. *)
Lemma without_toggles_remove (p : path) (t : node) :
  fading t p -> without_toggles (remove_at t p) = without_toggles t.
Proof.
  revert t; induction p as [|i p IH]; intros t H.
  - destruct H as [H|H]; cbn in H |- *.
    + unfold without_toggles. now rewrite H.
    + now subst.
  - cbn [remove_at]. destruct t as [s|n c ks|]; try reflexivity.
    unfold without_toggles.
    rewrite (toggle_contents n c _ ks).
    destruct (toggle (Elem n c ks)); [reflexivity|].
    rewrite !without_toggles_elem. f_equal.
    apply map_alter_nth. intros k Hk. apply IH.
    unfold fading in *. cbn [at_path] in H. now rewrite Hk in H.
Qed.

(** A document without toggle buttons has none anywhere. *)
Lemma no_toggle_at (p : path) (t : node) :
  without_toggles t = t -> toggle (at_path t p) = false.
Proof.
  revert t; induction p as [|i p IH]; intros t H.
  - cbn. unfold without_toggles in H. destruct (toggle t) eqn:E; [|reflexivity].
    subst t. discriminate.
  - cbn [at_path]. destruct t as [s|n c ks|]; try reflexivity.
    destruct (nth_error ks i) as [k|] eqn:Hk; [|reflexivity].
    apply IH. unfold without_toggles in H.
    destruct (toggle (Elem n c ks)); [discriminate|].
    rewrite without_toggles_elem in H. injection H as H.
    assert (E : nth_error (map without_toggles ks) i = Some k) by now rewrite H.
    rewrite nth_error_map, Hk in E. now injection E.
Qed.

Lemma only_toggles_lost_refl (t : node) : only_toggles_lost t t.
Proof. split; auto. Qed.

Lemma only_toggles_lost_trans (a b c : node) :
  only_toggles_lost a b -> only_toggles_lost b c -> only_toggles_lost a c.
Proof.
  intros [H1 H1'] [H2 H2']. split; [congruence|].
  intros H. rewrite <- (H1' H). apply H2'. rewrite (H1' H). exact H.
Qed.

Lemma only_toggles_lost_remove (p : path) (t : node) :
  fading t p -> only_toggles_lost t (remove_at t p).
Proof.
  intros H. split; [now apply without_toggles_remove|].
  intros Hclean. apply remove_at_nothing.
  destruct H as [H|H]; [|exact H].
  rewrite (no_toggle_at p Hclean) in H. discriminate.
Qed.

(** ** What a search finds *)

Lemma matching_cons (sel : node -> bool) (x : path * node) l :
  matching sel (x :: l)
  = if sel (snd x) then fst x :: matching sel l else matching sel l.
Proof. unfold matching. cbn [filter]. now destruct (sel (snd x)). Qed.

Lemma matching_app (sel : node -> bool) (l1 l2 : list (path * node)) :
  matching sel (l1 ++ l2) = matching sel l1 ++ matching sel l2.
Proof. unfold matching. now rewrite filter_app, map_app. Qed.

Lemma matching_under (sel : node -> bool) (i : nat) (l : list (path * node)) :
  matching sel (map (under i) l) = map (cons i) (matching sel l).
Proof.
  induction l as [|x l IH]; [reflexivity|].
  cbn [map]. rewrite !matching_cons. cbn [under snd fst].
  destruct (sel (snd x)); cbn [map]; now rewrite IH.
Qed.

Lemma in_matching (sel : node -> bool) (q : path) (l : list (path * node)) :
  In q (matching sel l) -> exists n, In (q, n) l /\ sel n = true.
Proof.
  unfold matching. rewrite in_map_iff. intros ([q' n] & <- & H).
  apply filter_In in H. now exists n.
Qed.

(** A descendant sits where its path says. *)
Lemma descendants_from_at (ks : list node) :
  Forall (fun k => forall q n, In (q, n) (descendants k) -> at_path k q = n) ks ->
  forall i q n, In (q, n) (descendants_from i ks) ->
    exists j q', q = (i + j) :: q' /\
      match nth_error ks j with
      | Some k => at_path k q' = n
      | None => False
      end.
Proof.
  induction 1 as [|k ks Hk _ IH]; intros i q n; cbn [descendants_from];
    [intros []|].
  intros [H|H]; [|apply in_app_or in H as [H|H]].
  - injection H as <- <-. exists 0, []. rewrite Nat.add_0_r. now split.
  - apply in_map_iff in H as ([q0 n0] & E & H). injection E as <- <-.
    exists 0, q0. rewrite Nat.add_0_r. split; [reflexivity|]. now apply Hk.
  - destruct (IH _ _ _ H) as (j & q' & -> & Hj).
    exists (S j), q'. split; [f_equal; lia | exact Hj].
Qed.

Lemma descendants_at (t : node) (q : path) (n : node) :
  In (q, n) (descendants t) -> at_path t q = n.
Proof.
  revert q n. induction t as [s| |n0 c ks IH] using node_nested_ind;
    intros q n; try (intros []).
  rewrite descendants_elem. intros H.
  destruct (descendants_from_at IH _ _ _ H) as (j & q' & -> & Hj).
  cbn [at_path Nat.add]. destruct (nth_error ks j); [exact Hj | contradiction].
Qed.

Lemma found_toggles_fade (t : node) (d q : path) :
  In q (matching toggle (descendants (at_path t d))) -> fading t (d ++ q).
Proof.
  intros H. apply in_matching in H as (n & H & Hn).
  left. rewrite at_path_app, (descendants_at _ _ _ H). exact Hn.
Qed.

(** ** Decomposing what a search found *)

Lemma decompose_all (ps : list path) (document : node) :
  for_each (map Some ps) (fun element _ => decompose element) tt document
  = Ok (tt, fold_left remove_at ps document).
Proof.
  revert document; induction ps as [|p ps IH]; intros document; [reflexivity|].
  cbn [map for_each fold_left]. unfold bind at 1. cbn. apply IH.
Qed.

Lemma fold_remove_gone (qs : list path) : fold_left remove_at qs Gone = Gone.
Proof.
  induction qs as [|q qs IH]; cbn [fold_left]; [reflexivity|].
  now rewrite remove_at_gone.
Qed.

Lemma fold_remove_under (i : nat) (qs : list path) (n : str) (c : list str)
    (ks : list node) :
  fold_left remove_at (map (cons i) qs) (Elem n c ks)
  = Elem n c (alter_nth (fun k => fold_left remove_at qs k) i ks).
Proof.
  revert ks; induction qs as [|q qs IH]; intros ks; cbn [map fold_left].
  - f_equal. symmetry. now apply alter_nth_same.
  - cbn [remove_at]. now rewrite IH, alter_nth_twice.
Qed.

Lemma fold_remove_toggles_from (n : str) (c : list str) (ks : list node) :
  Forall (fun k => fold_left remove_at (matching toggle (descendants k)) k
                   = toggles_removed k) ks ->
  forall pre,
    fold_left remove_at (matching toggle (descendants_from (length pre) ks))
      (Elem n c (pre ++ ks))
    = Elem n c (pre ++ map without_toggles ks).
Proof.
  induction 1 as [|k ks Hk _ IH]; intros pre; [reflexivity|].
  cbn [descendants_from map]. rewrite matching_cons, matching_app, matching_under.
  cbn [snd fst]. unfold without_toggles at 1.
  assert (Hrest : forall k', fold_left remove_at
            (matching toggle (descendants_from (S (length pre)) ks))
            (Elem n c (pre ++ k' :: ks))
          = Elem n c (pre ++ k' :: map without_toggles ks)).
  { intros k'. specialize (IH (pre ++ [k'])).
    rewrite length_app, Nat.add_1_r, <- !app_assoc in IH. exact IH. }
  destruct (toggle k).
  - cbn [fold_left remove_at]. rewrite alter_nth_app.
    rewrite fold_left_app, fold_remove_under, alter_nth_app, fold_remove_gone.
    apply Hrest.
  - rewrite fold_left_app, fold_remove_under, alter_nth_app, Hk. apply Hrest.
Qed.

(** Decomposing every toggle button found below a tag, one after the
    other, leaves the tag without its toggle buttons. *)
Lemma fold_remove_toggles (t : node) :
  fold_left remove_at (matching toggle (descendants t)) t = toggles_removed t.
Proof.
  induction t as [s| |n c ks IH] using node_nested_ind; try reflexivity.
  rewrite descendants_elem, without_toggles_elem.
  exact (fold_remove_toggles_from n c IH []).
Qed.

Lemma at_path_remove_below (d q : path) (t : node) :
  at_path (remove_at t (d ++ q)) d = remove_at (at_path t d) q.
Proof.
  revert t; induction d as [|i d IH]; intros t; [reflexivity|].
  cbn [app remove_at]. destruct t as [s|n c ks|];
    cbn [at_path]; try now rewrite remove_at_gone.
  rewrite nth_error_alter_nth, Nat.eqb_refl.
  destruct (nth_error ks i); cbn [option_map];
    [apply IH | now rewrite remove_at_gone].
Qed.

Lemma at_path_fold_remove_below (d : path) (qs : list path) (t : node) :
  at_path (fold_left remove_at (map (app d) qs) t) d
  = fold_left remove_at qs (at_path t d).
Proof.
  revert t; induction qs as [|q qs IH]; intros t; cbn [map fold_left];
    [reflexivity|].
  now rewrite IH, at_path_remove_below.
Qed.

Lemma only_toggles_lost_fold (ps : list path) (t : node) :
  Forall (fading t) ps -> only_toggles_lost t (fold_left remove_at ps t).
Proof.
  revert t; induction ps as [|p ps IH]; intros t H; cbn [fold_left].
  - apply only_toggles_lost_refl.
  - inversion H as [|? ? Hp Hps]; subst.
    eapply only_toggles_lost_trans; [apply only_toggles_lost_remove, Hp|].
    apply IH. eapply Forall_impl; [|exact Hps].
    intros q. apply fading_after_remove.
Qed.

(* ================================================================== *)
(** * The cruise extractor, one day at a time *)
(* ================================================================== *)

Lemma nonempty_false (s : str) : nonempty s = false -> s = [].
Proof. destruct s; [reflexivity | discriminate]. Qed.

Lemma first_try_spec (cw : path) (document : node) :
  returns (first_try (Some cw) []) document
    (fun s document' =>
       s = nested_summary (at_path document cw) /\ document' = document).
Proof.
  unfold first_try, nested_summary, first_tag. step. step. cbn [option_map].
  destruct (hd_error _) as [i|]; cbn [option_map truthy]; [|now step].
  step. step. rewrite <- at_path_app.
  destruct (hd_error _) as [j|]; cbn [option_map truthy text_at]; [|now step].
  step. now rewrite <- !at_path_app, app_assoc.
Qed.

Lemma second_try_spec (cw : path) (description_text : str) (document : node) :
  returns (second_try (Some cw) description_text) document
    (fun s document' =>
       s = (if nonempty description_text then description_text
            else plain_summary (at_path document cw)) /\
       document' = document).
Proof.
  unfold second_try, plain_summary, first_tag.
  destruct (nonempty description_text) eqn:E; cbn [negb]; [now step|].
  step. step. cbn [option_map].
  destruct (hd_error _) as [j|]; cbn [option_map truthy text_at].
  - step. now rewrite at_path_app.
  - step. split; [now apply nonempty_false | reflexivity].
Qed.

Lemma third_try_spec (cw : path) (description_text : str) (document : node) :
  returns (third_try (Some cw) description_text) document
    (fun s document' =>
       s = (if nonempty description_text then description_text
            else descr_text (at_path document cw)) /\
       only_toggles_lost document document').
Proof.
  unfold third_try, descr_text, first_tag.
  destruct (nonempty description_text) eqn:E; cbn [negb].
  { step. split; [reflexivity | apply only_toggles_lost_refl]. }
  step. step. cbn [option_map].
  destruct (hd_error _) as [d|]; cbn [option_map truthy].
  2:{ step. split; [now apply nonempty_false | apply only_toggles_lost_refl]. }
  step. step. step.
  fold toggle. set (qs := matching toggle _).
  exists tt, (fold_left remove_at (map (app (cw ++ d)) qs) document). split.
  { rewrite <- (map_map (app (cw ++ d)) Some). apply decompose_all. }
  step. split.
  - rewrite at_path_fold_remove_below. subst qs.
    now rewrite fold_remove_toggles, at_path_app.
  - apply only_toggles_lost_fold. apply Forall_forall. intros p Hp.
    apply in_map_iff in Hp as (q & <- & Hq). now apply found_toggles_fade.
Qed.

(** The description is the first of the three candidates that is not
    empty. *)
Lemma resolve_description_spec (cw : path) (document : node) :
  returns (resolve_description (Some cw)) document
    (fun s document' =>
       s = first_nonempty [ nested_summary (at_path document cw);
                            plain_summary (at_path document cw);
                            descr_text (at_path document cw) ] /\
       only_toggles_lost document document').
Proof.
  unfold resolve_description. apply returns_bind.
  eapply returns_weaken; [apply first_try_spec|]. intros a ? [-> ->].
  apply returns_bind.
  eapply returns_weaken; [apply second_try_spec|]. intros b ? [-> ->].
  eapply returns_weaken; [apply third_try_spec|]. intros c ? [-> H].
  split; [|exact H]. cbn [first_nonempty].
  destruct (nonempty (nested_summary _)) eqn:Ea; cbv iota; [now rewrite Ea|].
  destruct (nonempty (plain_summary _)) eqn:Eb; cbv iota; [reflexivity|].
  destruct (nonempty (descr_text _)) eqn:Ec; [reflexivity|].
  now apply nonempty_false.
Qed.

Lemma cruise_day_spec (divs : list ref) (first_div : path) (day_info : DayInfo)
    (document : node) :
  nth_error divs 0 = Some (Some first_div) ->
  returns (cruise_day divs day_info) document
    (fun f document' =>
       document' = document /\
       match f with
       | Continue => True
       | Next d =>
           title d = title day_info /\ body d = body day_info /\
           (d = day_info \/ nonempty (day d) = true)
       end).
Proof.
  intros H0. unfold cruise_day. step.
  eapply returns_index; [exact H0|]. step. step.
  destruct (option_map _ _) as [h5|]; cbn [truthy]; [|step; auto].
  step. step. destruct (Re.search_day _) as [m|] eqn:E; cbn [truthy];
    [|now step].
  steps. repeat split; auto. right. exact (search_day_group _ E).
Qed.

Lemma cruise_location_spec (divs : list ref) (second_div : path)
    (day_info : DayInfo) (document : node) :
  nth_error divs 1 = Some (Some second_div) ->
  returns (cruise_location divs day_info) document
    (fun d document' =>
       day d = day day_info /\ only_toggles_lost document document').
Proof.
  intros H1. unfold cruise_location. step.
  eapply returns_index; [exact H1|]. step. step. step.
  apply returns_weaken
    with (Q := fun d document' => day d = day day_info /\ document' = document).
  { destruct (option_map _ _) as [h5|]; cbn [truthy]; steps; auto. }
  intros d ? [Hd ->]. step. step.
  destruct (option_map _ _) as [cw|]; cbn [truthy];
    [|step; split; [exact Hd | apply only_toggles_lost_refl]].
  step. eapply returns_weaken; [apply resolve_description_spec|].
  intros s document' [_ H]. destruct (nonempty s); step; auto.
Qed.

Lemma two_found (p : path) (l : list path) :
  (2 <=? length (map (fun q => Some (p ++ q)) l)) = true ->
  exists a b, nth_error (map (fun q => Some (p ++ q)) l) 0 = Some (Some a) /\
              nth_error (map (fun q => Some (p ++ q)) l) 1 = Some (Some b).
Proof.
  destruct l as [|a [|b l]]; try discriminate. intros _.
  now exists (p ++ a), (p ++ b).
Qed.



Lemma cruise_scan_spec (item : path) (document : node) :
  returns (cruise_scan (Some item)) document
    (fun _ document' => only_toggles_lost document document').
Proof.
  unfold cruise_scan. step. step.
  set (divs := map (fun q => Some _) _). destruct (2 <=? _) eqn:E;
    [|step; apply only_toggles_lost_refl].
  destruct (two_found _ _ E) as (a & b & Ha & Hb). fold divs in Ha, Hb.
  step. eapply returns_weaken; [eapply cruise_day_spec, Ha|].
  intros [d|] ? [-> _]; [|step; apply only_toggles_lost_refl].
  step. eapply returns_weaken; [eapply cruise_location_spec, Hb|].
  intros d' document' [_ H']. now step.
Qed.

Lemma generic_body_nonempty (title : str) : nonempty (generic_body title) = true.
Proof. reflexivity. Qed.

Lemma cruise_keep_spec (day_info : DayInfo) (items : list DayInfo) :
  cruise_keep day_info items = items \/
  exists r, cruise_keep day_info items = items ++ [r] /\ complete r.
Proof.
  unfold cruise_keep, complete.
  destruct (nonempty (day day_info)) eqn:Hd; [|now left].
  destruct (nonempty (title day_info)) eqn:Ht; [|now left].
  right. cbn [andb]. eexists. split; [reflexivity|].
  destruct (nonempty (body day_info)) eqn:Hb; cbn [negb]; auto.
Qed.

Lemma cruise_item_spec (item : path) (items : list DayInfo) (document : node) :
  returns (cruise_item (Some item) items) document
    (fun items' document' =>
       only_toggles_lost document document' /\
       (items' = items \/ exists r, items' = items ++ [r] /\ complete r)).
Proof.
  unfold cruise_item. step.
  eapply returns_weaken; [apply cruise_scan_spec|].
  intros [d|] document' H; step; split; auto. apply cruise_keep_spec.
Qed.

(* ================================================================== *)
(** * The extractors as a whole *)
(* ================================================================== *)

Lemma complete_added (items items' : list DayInfo) :
  Forall complete items ->
  items' = items \/ (exists r, items' = items ++ [r] /\ complete r) ->
  Forall complete items'.
Proof.
  intros H [->|(r & -> & Hr)]; [exact H|].
  apply Forall_app. split; [exact H | now constructor].
Qed.

Lemma parse_cruise_spec (document : node) :
  returns parse_cruise_itinerary_days document
    (fun items document' =>
       Forall complete items /\ only_toggles_lost document document').
Proof.
  unfold parse_cruise_itinerary_days, soup. step. step. step.
  apply returns_weaken
    with (Q := fun (_ : ref) document' => document' = document).
  { destruct (option_map _ _); cbn [truthy negb]; now steps. }
  intros [container|] ? ->; cbn [truthy negb].
  2:{ step. split; [constructor | apply only_toggles_lost_refl]. }
  step. step.
  apply returns_for_each
    with (Inv := fun items document' =>
                   Forall complete items /\ only_toggles_lost document document').
  2:{ split; [constructor | apply only_toggles_lost_refl]. }
  intros x items document' Hx [Hc Hl]. destruct (in_found _ _ _ Hx) as [q ->].
  eapply returns_weaken; [apply cruise_item_spec|].
  intros items' document'' [Hl' H']. split.
  - exact (complete_added Hc H').
  - exact (only_toggles_lost_trans Hl Hl').
Qed.

Lemma parse_tour_spec (document : node) :
  returns parse_tour_itinerary_days document
    (fun items document' => Forall complete items /\ document' = document).
Proof.
  unfold parse_tour_itinerary_days, soup. step. step.
  destruct (option_map _ _) as [section|]; cbn [truthy negb];
    [|step; split; [constructor | reflexivity]].
  step. step.
  apply returns_for_each
    with (Inv := fun items document' =>
                   Forall complete items /\ document' = document).
  2:{ split; [constructor | reflexivity]. }
  intros x items ? Hx [Hc ->]. destruct (in_found _ _ _ Hx) as [q ->].
  eapply returns_weaken; [apply tour_item_spec|].
  intros items' ? [-> H']. split; [exact (complete_added Hc H') | reflexivity].
Qed.

(* ================================================================== *)
(** * Sentences of a summary *)
(* ================================================================== *)

Lemma sentences_fragments (text : str) : sentences_of text = fragments text.
Proof.
  unfold sentences_of, fragments.
  induction (split 46%N text) as [|p l IH]; [reflexivity|].
  cbn [filter map]. destruct (nonempty (strip p)); cbn [map]; now rewrite IH.
Qed.

Lemma split_pieces (sep : char) (s : str) :
  Forall (fun piece => ~ In sep piece) (split sep s).
Proof.
  induction s as [|c s IH]; cbn [split].
  - constructor; auto.
  - destruct (N.eqb_spec c sep) as [->|Hc].
    + constructor; auto.
    + destruct (split sep s) as [|piece pieces].
      * constructor; [|constructor]. intros [H|[]]. congruence.
      * inversion IH; subst. constructor; [|assumption].
        intros [H|H]; [congruence | contradiction].
Qed.

Lemma in_drop_while (f : char -> bool) (s : str) (x : char) :
  In x (drop_while f s) -> In x s.
Proof.
  induction s as [|c s IH]; cbn [drop_while]; [auto|].
  destruct (f c); [right; auto | auto].
Qed.

Lemma in_strip (s : str) (x : char) : In x (strip s) -> In x s.
Proof.
  unfold strip, rstrip, lstrip. intros H.
  apply in_rev, in_drop_while, in_rev, in_drop_while in H. exact H.
Qed.

Lemma fragments_spec (text : str) :
  Forall (fun f => nonempty f = true /\ ~ In 46%N f) (fragments text).
Proof.
  unfold fragments. apply Forall_forall. intros f Hf.
  apply filter_In in Hf as [Hf Hn]. split; [exact Hn|].
  apply in_map_iff in Hf as (piece & <- & Hp).
  intros H. apply in_strip in H.
  exact (proj1 (Forall_forall _ _) (split_pieces 46%N text) _ Hp H).
Qed.

Lemma endswith_absent (c : char) (s : str) : ~ In c s -> endswith c s = false.
Proof.
  unfold endswith. intros H. destruct (rev s) as [|x r] eqn:E; [reflexivity|].
  apply N.eqb_neq. intros ->. apply H, in_rev. rewrite E. now left.
Qed.

Lemma endswith_app (c : char) (a b : str) :
  nonempty b = true -> endswith c (a ++ b) = endswith c b.
Proof.
  unfold endswith. rewrite rev_app_distr. intros H.
  destruct (rev b) as [|x r] eqn:E; [|reflexivity].
  apply (f_equal (@rev char)) in E. rewrite rev_involutive in E. now subst b.
Qed.

Lemma join_nonempty (sep : str) (p : str) (l : list str) :
  nonempty p = true -> nonempty (join sep (p :: l)) = true.
Proof. destruct p; [discriminate|]. now destruct l. Qed.

(** Joined fragments never end with the character they were split on. *)
Lemma join_fragments_end (sep : str) (c : char) (l : list str) :
  Forall (fun f => nonempty f = true /\ ~ In c f) l ->
  endswith c (join sep l) = false.
Proof.
  induction 1 as [|p l [Hn Hc] Hl IH]; [reflexivity|].
  destruct l as [|q l]; [now apply endswith_absent|].
  change (join sep (p :: q :: l)) with (p ++ sep ++ join sep (q :: l)).
  rewrite app_assoc, endswith_app; [exact IH|].
  inversion Hl as [|? ? [Hq _] _]; subst. now apply join_nonempty.
Qed.

Lemma parse_tour_description_spec (document : node) :
  parse_tour_itinerary_description document
  = Ok ([ match first_tag (u "div") (u "ao-clp-custom-tdp-itinerary__description")
                  document with
          | Some p => join (u ". ") (fragments (clean (node_text (at_path document p))))
          | None => []
          end ], document).
Proof.
  unfold parse_tour_itinerary_description, first_tag, soup, bind, find, on_tag.
  cbn [option_map app at_path].
  destruct (hd_error _) as [p|]; cbn [option_map truthy]; [|reflexivity].
  unfold get_text, on_tag, ret. now rewrite sentences_fragments.
Qed.

(** The body of a cruise day is the normalized description, when there
    is one. *)
Lemma cruise_location_body (divs : list ref) (second_div : path)
    (day_info : DayInfo) (document : node) :
  nth_error divs 1 = Some (Some second_div) ->
  returns (cruise_location divs day_info) document
    (fun d _ =>
       body d =
       match first_tag (u "div") (u "content-wrap") (at_path document second_div) with
       | Some cw =>
           let w := at_path document (second_div ++ cw) in
           let description_text :=
             first_nonempty [nested_summary w; plain_summary w; descr_text w] in
           if nonempty description_text then clean description_text
           else body day_info
       | None => body day_info
       end).
Proof.
  intros H1. unfold cruise_location. step.
  eapply returns_index; [exact H1|]. step. step. step.
  apply returns_weaken
    with (Q := fun d document' => body d = body day_info /\ document' = document).
  { destruct (option_map _ _) as [h5|]; cbn [truthy]; steps; auto. }
  intros d ? [Hb ->]. step. step. unfold first_tag. cbn [option_map].
  destruct (hd_error _) as [cw|]; cbn [option_map truthy]; [|step; exact Hb].
  step. eapply returns_weaken; [apply resolve_description_spec|].
  intros s document' [-> _]. cbv zeta.
  destruct (nonempty _); step; [reflexivity | exact Hb].
Qed.

(* ================================================================== *)
(** * Properties of the scraper *)
(* ================================================================== *)

(** C1.  Both extractors return, and every record they return has a
    non-empty day, a non-empty title and a non-empty body.  A cruise
    record that reaches the inclusion check with a day and a title but
    no body is kept with the generic sentence about its title as body; a
    tour record whose body is empty is not kept. *)
Theorem emitted_records_are_complete (document : node) :
  returns parse_cruise_itinerary_days document
    (fun items _ => Forall complete items) /\
  returns parse_tour_itinerary_days document
    (fun items _ => Forall complete items) /\
  (forall day_info items,
     nonempty (day day_info) = true -> nonempty (title day_info) = true ->
     nonempty (body day_info) = false ->
     cruise_keep day_info items
     = items ++ [set_body (generic_body (title day_info)) day_info]) /\
  (forall day_info items,
     nonempty (body day_info) = false -> tour_keep day_info items = items).
Proof.
  split; [|split; [|split]].
  - eapply returns_weaken; [apply parse_cruise_spec|]. now intros ? ? [H _].
  - eapply returns_weaken; [apply parse_tour_spec|]. now intros ? ? [H _].
  - intros d items Hd Ht Hb. unfold cruise_keep. now rewrite Hd, Ht, Hb.
  - intros d items Hb. unfold tour_keep. rewrite Hb. now rewrite andb_false_r.
Qed.

Lemma emitted_records_are_complete_witness :
  cruise_keep (Samples.bare "6" "Miami") []
  = [Samples.record "6" "Miami"
       "Explore Miami and enjoy the local attractions and culture."] /\
  tour_keep (Samples.bare "3" "Hue") [] = [].
Proof.
  destruct (emitted_records_are_complete Samples.plain_page) as (_ & _ & Hc & Ht).
  split.
  - apply (Hc (Samples.bare "6" "Miami") []); reflexivity.
  - apply (Ht (Samples.bare "3" "Hue") []); reflexivity.
Defined.

(** C2.  An address that contains [cruises.flightcentre] is a cruise
    address; one that does not but contains [tours.flightcentre] is a
    tour address; any other address is of no kind, and [scrape_content]
    then raises its exception for an unrecognized address without having
    requested anything. *)
Theorem classification_by_substring
    (robots_url : str -> option str) (http_get : str -> fetched)
    (parse_html : str -> node) (url : str) :
  (occurs_in (u "cruises.flightcentre") url ->
   determine_scraper_type url = Some (u "cruise")) /\
  (~ occurs_in (u "cruises.flightcentre") url ->
   occurs_in (u "tours.flightcentre") url ->
   determine_scraper_type url = Some (u "tour")) /\
  (~ occurs_in (u "cruises.flightcentre") url ->
   ~ occurs_in (u "tours.flightcentre") url ->
   determine_scraper_type url = None /\
   scrape_content robots_url http_get parse_html url
   = (Raise unrecognized_url, [])).
Proof.
  unfold scrape_content, determine_scraper_type.
  split; [|split].
  - intros Hc. apply contains_occurs in Hc. now rewrite Hc.
  - intros Hc Ht. apply contains_absent in Hc. apply contains_occurs in Ht.
    now rewrite Hc, Ht.
  - intros Hc Ht. apply contains_absent in Hc. apply contains_absent in Ht.
    now rewrite Hc, Ht.
Qed.

Lemma classification_by_substring_witness :
  determine_scraper_type (u "https://cruises.flightcentre.com.au/cruise/1")
  = Some (u "cruise") /\
  determine_scraper_type (u "https://tours.flightcentre.com.au/t/vietnam")
  = Some (u "tour") /\
  scrape_content (fun _ => None) (fun _ => RequestException []) (fun _ => Gone)
    (u "https://www.flightcentre.com.au/holidays")
  = (Raise unrecognized_url, []).
Proof.
  split; [|split].
  - apply (classification_by_substring (fun _ => None) (fun _ => RequestException [])
             (fun _ => Gone)).
    apply contains_occurs. vm_compute. reflexivity.
  - apply (classification_by_substring (fun _ => None) (fun _ => RequestException [])
             (fun _ => Gone));
      [apply contains_absent | apply contains_occurs]; vm_compute; reflexivity.
  - apply (classification_by_substring (fun _ => None) (fun _ => RequestException [])
             (fun _ => Gone));
      apply contains_absent; vm_compute; reflexivity.
Defined.

(** C3, as the code has it.  In the cruise extractor the description of
    a day is the first non-empty text of three candidates taken in this
    order from the content wrapper: the first [text-info-summary] span
    below the first [text-info] span, the first [text-info-summary] span
    anywhere below the wrapper, at any depth, and the text of the first
    [descr] div with its [more] and [less] spans removed; the body of
    the day is that description, normalized, when it is not empty.  The day item of the sample page
    with headings "Day 3" and "Nassau" and the summary span "Explore the
    beaches." yields exactly the record of the scenario. *)
Theorem cruise_body_fallback :
  (forall (content_wrap : path) (document : node),
     returns (resolve_description (Some content_wrap)) document
       (fun description_text _ =>
          let w := at_path document content_wrap in
          description_text
          = first_nonempty [nested_summary w; plain_summary w; descr_text w])) /\
  (forall (divs : list ref) (second_div : path) (day_info : DayInfo)
          (document : node),
     nth_error divs 1 = Some (Some second_div) ->
     returns (cruise_location divs day_info) document
       (fun d _ =>
          body d =
          match first_tag (u "div") (u "content-wrap")
                  (at_path document second_div) with
          | Some cw =>
              let w := at_path document (second_div ++ cw) in
              let description_text :=
                first_nonempty [nested_summary w; plain_summary w; descr_text w] in
              if nonempty description_text then clean description_text
              else body day_info
          | None => body day_info
          end)) /\
  cruise_item (Some Samples.nassau_item) [] Samples.cruise_page
  = Ok ([Samples.record "3" "Nassau" "Explore the beaches."],
        Samples.cruise_page).
Proof.
  split; [|split].
  - intros cw document. eapply returns_weaken; [apply resolve_description_spec|].
    now intros s ? [-> _].
  - intros divs second_div day_info document H.
    now apply cruise_location_body.
  - vm_compute. reflexivity.
Qed.

Lemma cruise_body_fallback_witness :
  returns
    (cruise_location [Some [0; 0; 0]; Some Samples.nassau_block] new_day_info)
    Samples.cruise_page
    (fun d _ => body d = u "Explore the beaches.").
Proof.
  destruct cruise_body_fallback as (_ & H & _).
  eapply returns_weaken.
  - apply (H [Some [0; 0; 0]; Some Samples.nassau_block] Samples.nassau_block
             new_day_info Samples.cruise_page). reflexivity.
  - intros d ? ->. vm_compute. reflexivity.
Defined.

(** C3, as it is written, fails.  On the sample page whose wrapper has
    an empty summary nested in its [text-info] span and, after it, a
    top-level summary span "Explore the beaches.", the fallback of the
    claim gives that text, but the second try of the code finds the
    nested span again, the first one in document order, and the record
    is kept with the generic body. *)
Lemma top_level_summary_is_passed_over :
  first_nonempty
    [ nested_summary (at_path Samples.shadowed_page Samples.shadowed_wrap);
      top_level_summary (at_path Samples.shadowed_page Samples.shadowed_wrap);
      descr_text (at_path Samples.shadowed_page Samples.shadowed_wrap) ]
  = u "Explore the beaches." /\
  cruise_item (Some Samples.shadowed_item) [] Samples.shadowed_page
  = Ok ([Samples.record "3" "Nassau"
           "Explore Nassau and enjoy the local attractions and culture."],
        Samples.shadowed_page) /\
  ~ (forall (content_wrap : path) (document : node),
       returns (resolve_description (Some content_wrap)) document
         (fun description_text _ =>
            let w := at_path document content_wrap in
            description_text
            = first_nonempty
                [nested_summary w; top_level_summary w; descr_text w])).
Proof.
  split; [vm_compute; reflexivity|]. split; [vm_compute; reflexivity|].
  intros H.
  destruct (H Samples.shadowed_wrap Samples.shadowed_page) as (s & d & E & Hs).
  vm_compute in E. injection E as <- _. vm_compute in Hs. discriminate Hs.
Qed.

(** C4, on the input where the code departs from it.  The title
    "Optional Day 2: Hoi An" does not start with [Day <N>:], yet the row
    is kept, with the day number found further on and the title left
    whole. *)
Theorem day_pattern_found_past_the_start :
  Re.match_day_colon (u "Optional Day 2: Hoi An") = None /\
  parse_tour_itinerary_days Samples.optional_day_page
  = Ok ([Samples.record "2" "Optional Day 2: Hoi An" "Visit the old town."],
        Samples.optional_day_page).
Proof. split; vm_compute; reflexivity. Qed.

(** C5.  [clean_text] is idempotent; it returns a string that has none
    of the seven characters it replaces as it is, and [None] as it is. *)
Theorem clean_text_idempotent :
  (forall text, clean_text (clean_text text) = clean_text text) /\
  (forall s, has_target s = false -> clean_text (Some s) = Some s) /\
  clean_text None = None.
Proof.
  split; [|split].
  - intros [s|]; cbn [clean_text]; [|reflexivity]. now rewrite clean_clean.
  - intros s H. cbn [clean_text]. now rewrite clean_unchanged.
  - reflexivity.
Qed.

Lemma clean_text_idempotent_witness :
  clean_text (Some (u "Day 1 - Hanoi's Old Quarter..."))
  = Some (u "Day 1 - Hanoi's Old Quarter...").
Proof.
  destruct clean_text_idempotent as (_ & H & _).
  apply (H (u "Day 1 - Hanoi's Old Quarter...")). vm_compute. reflexivity.
Defined.

(** C6.  When the second block of a cruise day gives the title "At Sea"
    and no description, the loop body keeps the record, if it has a day
    number, with the fixed sentence of a day at sea as its body. *)
Theorem at_sea_day_gets_fixed_body
    (item : path) (items : list DayInfo) (document : node)
    (divs : list ref) (numbered : DayInfo) (document1 : node)
    (located : DayInfo) (document2 : node) :
  find_all (Some item) [u "div"] None false document = Ok (divs, document) ->
  (2 <=? length divs) = true ->
  cruise_day divs new_day_info document = Ok (Next numbered, document1) ->
  cruise_location divs numbered document1 = Ok (located, document2) ->
  title located = u "At Sea" ->
  body located = [] ->
  cruise_item (Some item) items document
  = Ok (if nonempty (day located)
        then items ++ [set_body sea_day_body located]
        else items, document2).
Proof.
  intros Hdivs Hlen Hday Hloc Ht Hb.
  unfold cruise_item, cruise_scan, bind. rewrite Hdivs, Hlen.
  unfold bind. rewrite Hday, Hloc. unfold ret. f_equal. f_equal.
  unfold cruise_keep, at_sea. rewrite Hb, Ht. cbn [nonempty negb andb str_eqb].
  replace (str_eqb (u "At Sea") (u "At Sea")) with true by reflexivity.
  cbn [set_body day title body]. rewrite Ht.
  replace (nonempty (u "At Sea")) with true by reflexivity.
  replace (nonempty sea_day_body) with true by reflexivity.
  rewrite andb_true_r. cbn [negb].
  destruct located as [i d t im b]. cbn in *. subst. reflexivity.
Qed.

Lemma at_sea_day_gets_fixed_body_witness :
  cruise_item (Some Samples.at_sea_item) [] Samples.cruise_page
  = Ok ([Samples.record "4" "At Sea"
           "Day at sea - enjoy the ship's amenities and relax as you cruise to your next destination."],
        Samples.cruise_page).
Proof.
  refine (eq_trans
            (@at_sea_day_gets_fixed_body Samples.at_sea_item []
               Samples.cruise_page
               [Some [0; 1; 0]; Some [0; 1; 1]]
               (Samples.bare "4" (String.EmptyString))
               Samples.cruise_page
               (Samples.bare "4" "At Sea")
               Samples.cruise_page _ _ _ _ _ _) _);
    vm_compute; reflexivity.
Defined.

Lemma take_while_all (f : char -> bool) (s : str) :
  forallb f (take_while f s) = true.
Proof.
  induction s as [|c s IH]; cbn [take_while]; [reflexivity|].
  destruct (f c) eqn:E; [|reflexivity]. cbn [forallb]. now rewrite E.
Qed.

Lemma drop_while_suffix (f : char -> bool) (s : str) :
  exists pre, s = pre ++ drop_while f s.
Proof.
  induction s as [|c s [pre IH]]; [now exists []|]. cbn [drop_while].
  destruct (f c); [|now exists []].
  exists (c :: pre). cbn. now rewrite <- IH.
Qed.

Lemma drop_while_head (f : char -> bool) (s : str) :
  match drop_while f s with [] => True | c :: _ => f c = false end.
Proof.
  induction s as [|c s IH]; [exact I|]. cbn [drop_while].
  destruct (f c) eqn:E; [exact IH | exact E].
Qed.

Lemma rstrip_prefix (s : str) : exists tail, s = rstrip s ++ tail.
Proof.
  unfold rstrip. destruct (drop_while_suffix is_space (rev s)) as [pre E].
  exists (rev pre). rewrite <- rev_app_distr, <- E. now rewrite rev_involutive.
Qed.

Lemma ascii_for_normal (x : char) : normal x = ascii_for x.
Proof.
  destruct (is_target x) eqn:Hx.
  - unfold is_target, targets, replacements in Hx. cbn [map fst existsb] in Hx.
    rewrite !orb_true_iff in Hx.
    destruct Hx as [H|[H|[H|[H|[H|[H|[H|H]]]]]]]; try discriminate;
      apply N.eqb_eq in H; subst x; reflexivity.
  - rewrite (normal_other _ Hx).
    unfold is_target, targets, replacements in Hx. cbn [map fst existsb] in Hx.
    rewrite !orb_false_iff in Hx.
    destruct Hx as (H1 & H2 & H3 & H4 & H5 & H6 & H7 & _).
    unfold ascii_for. now rewrite H1, H2, H3, H4, H5, H6, H7.
Qed.

(** [clean_text] is the normalization of the specification. *)
Lemma clean_is_normalized_text (s : str) : clean s = normalized_text s.
Proof.
  rewrite clean_normal. apply flat_map_ext. exact ascii_for_normal.
Qed.

Lemma join_with_separator (sep : str) (parts : list str) :
  join sep parts = with_separator sep parts.
Proof.
  destruct parts as [|p rest]; [reflexivity|]. revert p.
  induction rest as [|q rest IH]; intros p.
  - cbn. now rewrite app_nil_r.
  - change (join sep (p :: q :: rest)) with (p ++ sep ++ join sep (q :: rest)).
    rewrite IH. cbn [with_separator flat_map]. now rewrite <- app_assoc.
Qed.

Lemma split_first_piece (sep : char) (s : str) :
  exists piece pieces, split sep s = piece :: pieces.
Proof.
  destruct s as [|c s]; cbn [split]; [eauto|].
  destruct (N.eqb c sep); [eauto|]. destruct (split sep s); eauto.
Qed.

(** The pieces of [split], with the separator put back, are the text. *)
Lemma with_separator_split (sep : char) (s : str) :
  with_separator [sep] (split sep s) = s.
Proof.
  induction s as [|c s IH]; [reflexivity|]. cbn [split].
  destruct (split_first_piece sep s) as (p & ps & E). rewrite E in IH |- *.
  destruct (N.eqb_spec c sep) as [->|_].
  - cbn [with_separator flat_map app] in IH |- *. now rewrite IH.
  - cbn [with_separator app] in IH |- *. now rewrite IH.
Qed.

Lemma split_is_split_at_dots (text : str) :
  split_at_dots text (split 46%N text).
Proof.
  split; [|split].
  - destruct (split_first_piece 46%N text) as (p & ps & ->). discriminate.
  - apply split_pieces.
  - apply with_separator_split.
Qed.

Lemma take_drop_while (f : char -> bool) (s : str) :
  s = take_while f s ++ drop_while f s.
Proof.
  induction s as [|c s IH]; [reflexivity|]. cbn [take_while drop_while].
  destruct (f c); [|reflexivity]. cbn [app]. now rewrite <- IH.
Qed.

Lemma forallb_rev (f : char -> bool) (s : str) :
  forallb f s = true -> forallb f (rev s) = true.
Proof.
  rewrite !forallb_forall. intros H x Hx. apply H. now apply in_rev.
Qed.

(** [strip] trims. *)
Lemma strip_is_trimmed (s : str) : trimmed_of s (strip s).
Proof.
  exists (take_while is_space s),
         (rev (take_while is_space (rev (lstrip s)))).
  assert (Hlast : rev (strip s) = drop_while is_space (rev (lstrip s)))
    by (unfold strip, rstrip; apply rev_involutive).
  split; [|split; [|split; [|split]]].
  - rewrite (take_drop_while is_space s) at 1. f_equal.
    fold (lstrip s). unfold strip, rstrip.
    rewrite <- rev_app_distr, <- take_drop_while. now rewrite rev_involutive.
  - apply take_while_all.
  - apply forallb_rev, take_while_all.
  - pose proof (drop_while_head is_space s) as Hy. fold (lstrip s) in Hy.
    unfold strip. destruct (rstrip_prefix (lstrip s)) as [tail E].
    destruct (rstrip (lstrip s)) as [|c r]; [exact I|]. rewrite E in Hy.
    exact Hy.
  - rewrite Hlast. apply drop_while_head.
Qed.

Lemma strips_are_trimmed (pieces : list str) :
  Forall2 trimmed_of pieces (map strip pieces).
Proof.
  induction pieces as [|p pieces IH]; constructor;
    [apply strip_is_trimmed | exact IH].
Qed.

(** C7.  [parse_tour_itinerary_description] always returns a list of
    exactly one string and leaves the document as it is.  Without a
    description node the string is empty.  With one, the text of the
    node is normalized as the specification has it; the string is made
    of the pieces of that text between its full stops, each trimmed of
    the white space at its ends, the empty ones dropped, with a full
    stop and a space between each two of them.  On the sample page with
    a dash and an ellipsis in its description the summary is
    "Hanoi - Saigon. Ten days"; on the page without a description it is
    the one empty string. *)
Theorem tour_summary_is_one_string :
  (forall document : node,
     exists s,
       parse_tour_itinerary_description document = Ok ([s], document) /\
       match first_tag (u "div") (u "ao-clp-custom-tdp-itinerary__description")
               document with
       | None => s = []
       | Some p =>
           exists pieces trimmed,
             split_at_dots (normalized_text (node_text (at_path document p)))
               pieces /\
             Forall2 trimmed_of pieces trimmed /\
             s = with_separator [46; 32]%N (filter nonempty trimmed)
       end) /\
  parse_tour_itinerary_description Samples.dashed_page
  = Ok ([u "Hanoi - Saigon. Ten days"], Samples.dashed_page) /\
  parse_tour_itinerary_description Samples.plain_page
  = Ok ([[]], Samples.plain_page).
Proof.
  split; [|split; vm_compute; reflexivity].
  intros document. eexists. split; [apply parse_tour_description_spec|].
  destruct (first_tag _ _ document) as [p|]; [|reflexivity].
  exists (split 46%N (clean (node_text (at_path document p)))),
         (map strip (split 46%N (clean (node_text (at_path document p))))).
  split; [|split].
  - rewrite <- clean_is_normalized_text. apply split_is_split_at_dots.
  - apply strips_are_trimmed.
  - rewrite join_with_separator. reflexivity.
Qed.

Lemma tour_summary_is_one_string_witness :
  exists s,
    parse_tour_itinerary_description Samples.tour_page
    = Ok ([s], Samples.tour_page) /\
    exists pieces trimmed,
      split_at_dots
        (normalized_text (node_text (at_path Samples.tour_page [0]))) pieces /\
      Forall2 trimmed_of pieces trimmed /\
      s = with_separator [46; 32]%N (filter nonempty trimmed).
Proof.
  exact (proj1 tour_summary_is_one_string Samples.tour_page).
Defined.

(** C8.  Without its container an extractor returns the empty list: the
    cruise extractor when the document has neither a dates-accordion
    block nor an accordion block, the tour extractor when it has no
    tour-itinerary section.  On every document the three extractors
    return and do not raise; the body of each loop returns too, and
    leaves the list as it was or adds one record to it.  A cruise day
    with fewer than two blocks and a tour row without a title block are
    passed over. *)
Theorem extractors_never_raise (document : node) :
  (first_tag (u "div") (u "grid-item-block-dates-accordion") document = None ->
   first_tag (u "div") (u "accordion-block") document = None ->
   parse_cruise_itinerary_days document = Ok ([], document)) /\
  (first_tag (u "section") (u "ao-clp-custom-tdp-itinerary") document = None ->
   parse_tour_itinerary_days document = Ok ([], document)) /\
  returns parse_cruise_itinerary_days document (fun _ _ => True) /\
  returns parse_tour_itinerary_days document (fun _ _ => True) /\
  returns parse_tour_itinerary_description document (fun _ _ => True) /\
  (forall item items,
     returns (cruise_item (Some item) items) document
       (fun items' _ => items' = items \/ exists r, items' = items ++ [r])) /\
  (forall item items,
     returns (tour_item (Some item) items) document
       (fun items' _ => items' = items \/ exists r, items' = items ++ [r])) /\
  (forall item items,
     length (matching (selects [u "div"] None)
               (children (at_path document item))) < 2 ->
     cruise_item (Some item) items document = Ok (items, document)) /\
  (forall item items,
     first_tag (u "div") (u "js-ao-common-accordion__title")
       (at_path document item) = None ->
     tour_item (Some item) items document = Ok (items, document)).
Proof.
  repeat split.
  - unfold first_tag. intros H1 H2.
    unfold parse_cruise_itinerary_days, bind, find, soup, on_tag.
    cbn [option_map at_path]. rewrite H1. cbn [option_map truthy negb].
    rewrite H2. reflexivity.
  - unfold first_tag. intros H.
    unfold parse_tour_itinerary_days, bind, find, soup, on_tag.
    cbn [option_map at_path]. rewrite H. reflexivity.
  - eapply returns_weaken; [apply parse_cruise_spec | auto].
  - eapply returns_weaken; [apply parse_tour_spec | auto].
  - eexists _, _. split; [apply parse_tour_description_spec | exact I].
  - intros item items. eapply returns_weaken; [apply cruise_item_spec|].
    intros items' ? [_ [H|(r & H & _)]]; eauto.
  - intros item items. eapply returns_weaken; [apply tour_item_spec|].
    intros items' ? [_ [H|(r & H & _)]]; eauto.
  - intros item items H.
    unfold cruise_item, cruise_scan, bind, find_all, on_tag.
    destruct (2 <=? _) eqn:E; [|reflexivity].
    apply Nat.leb_le in E. rewrite length_map in E. unfold path in H. lia.
  - unfold first_tag. intros item items H.
    unfold tour_item, tour_title, bind, find, on_tag.
    cbn [option_map]. rewrite H. reflexivity.
Qed.

Lemma extractors_never_raise_witness :
  parse_cruise_itinerary_days Samples.plain_page = Ok ([], Samples.plain_page) /\
  parse_tour_itinerary_days Samples.plain_page = Ok ([], Samples.plain_page) /\
  cruise_item (Some Samples.sparse_item) [] Samples.sparse_page
  = Ok ([], Samples.sparse_page) /\
  tour_item (Some Samples.untitled_row) [] Samples.tour_page
  = Ok ([], Samples.tour_page).
Proof.
  split; [|split; [|split]].
  - apply (extractors_never_raise Samples.plain_page); reflexivity.
  - apply (extractors_never_raise Samples.plain_page); reflexivity.
  - apply (extractors_never_raise Samples.sparse_page). vm_compute. lia.
  - apply (extractors_never_raise Samples.tour_page). reflexivity.
Defined.

(* ------------------------------------------------------------------ *)
(** ** Where the cruise extractor changes the document *)

Lemma alter_nth_at (f g : node -> node) (i : nat) (ks : list node) :
  (forall k, nth_error ks i = Some k -> f k = g k) ->
  alter_nth f i ks = alter_nth g i ks.
Proof.
  revert i; induction ks as [|k ks IH]; intros [|i] H; cbn; try reflexivity.
  - now rewrite H.
  - f_equal. apply IH. exact H.
Qed.

Lemma put_at_gone (p : path) (v : node) : p <> [] -> put_at Gone p v = Gone.
Proof. destruct p; [congruence | reflexivity]. Qed.

(** Decomposing below a node is replacing the node by itself with that
    part decomposed. *)
Lemma remove_at_put (p q : path) (t : node) :
  remove_at t (p ++ q) = put_at t p (remove_at (at_path t p) q).
Proof.
  revert t; induction p as [|i p IH]; intros t; [reflexivity|].
  cbn [app remove_at put_at]. destruct t as [s|n c ks|]; try reflexivity.
  f_equal. apply alter_nth_at. intros k Hk. cbn [at_path]. rewrite Hk. apply IH.
Qed.

Lemma put_at_twice (p : path) (t a b : node) :
  put_at (put_at t p a) p b = put_at t p b.
Proof.
  revert t; induction p as [|i p IH]; intros t; [reflexivity|].
  cbn [put_at]. destruct t as [s|n c ks|]; try reflexivity.
  cbn [put_at]. rewrite alter_nth_twice. f_equal.
  apply alter_nth_at. intros k _. apply IH.
Qed.

Lemma put_at_same (p : path) (t : node) : put_at t p (at_path t p) = t.
Proof.
  revert t; induction p as [|i p IH]; intros t; [reflexivity|].
  cbn [put_at]. destruct t as [s|n c ks|]; try reflexivity.
  f_equal. apply alter_nth_same. intros k Hk. cbn [at_path]. rewrite Hk.
  apply IH.
Qed.

Lemma fold_remove_put (p : path) (qs : list path) (t : node) :
  fold_left remove_at (map (app p) qs) t
  = put_at t p (fold_left remove_at qs (at_path t p)).
Proof.
  revert t; induction qs as [|q qs IH]; intros t; cbn [map fold_left].
  - symmetry. apply put_at_same.
  - rewrite IH, at_path_remove_below, remove_at_put. apply put_at_twice.
Qed.

Lemma descr_cleared_trans (a b c : node) :
  descr_cleared a b -> descr_cleared b c -> descr_cleared a c.
Proof.
  induction 1 as [t|t p after Hp _ IH]; intros H; [exact H|].
  eapply cleared_one; [exact Hp | exact (IH H)].
Qed.

Lemma found_is_selected (sel : node -> bool) (w : node) (d : path) :
  hd_error (matching sel (descendants w)) = Some d -> sel (at_path w d) = true.
Proof.
  intros H. assert (Hin : In d (matching sel (descendants w))).
  { destruct (matching sel (descendants w)); [discriminate|].
    injection H as ->. now left. }
  apply in_matching in Hin as (n & Hn & Hs).
  now rewrite (descendants_at _ _ _ Hn).
Qed.

(** The third try, when it is reached, changes the document in one
    place: the [descr] div it reads. *)
Lemma third_try_put (cw : path) (description_text : str) (document : node) :
  returns (third_try (Some cw) description_text) document
    (fun _ document' =>
       document' =
       if nonempty description_text then document
       else
         match first_tag (u "div") (u "descr") (at_path document cw) with
         | Some d =>
             put_at document (cw ++ d)
               (toggles_removed (at_path document (cw ++ d)))
         | None => document
         end).
Proof.
  unfold third_try, first_tag.
  destruct (nonempty description_text) eqn:E; cbn [negb]; [now step|].
  step. step. cbn [option_map].
  destruct (hd_error _) as [d|]; cbn [option_map truthy]; [|now step].
  step. step. step.
  fold toggle. set (qs := matching toggle _).
  exists tt, (fold_left remove_at (map (app (cw ++ d)) qs) document). split.
  { rewrite <- (map_map (app (cw ++ d)) Some). apply decompose_all. }
  step. subst qs. now rewrite fold_remove_put, fold_remove_toggles.
Qed.

Lemma resolve_description_put (cw : path) (document : node) :
  returns (resolve_description (Some cw)) document
    (fun _ document' => document' = after_fallback document cw).
Proof.
  unfold resolve_description, after_fallback. apply returns_bind.
  eapply returns_weaken; [apply first_try_spec|]. intros a ? [-> ->].
  apply returns_bind.
  eapply returns_weaken; [apply second_try_spec|]. intros b ? [-> ->].
  eapply returns_weaken; [apply third_try_put|]. intros c ? ->. cbv zeta.
  destruct (nonempty (nested_summary _)) eqn:Ea; cbv iota.
  - now rewrite Ea.
  - cbn [orb]. reflexivity.
Qed.

Lemma after_fallback_cleared (cw : path) (document : node) :
  descr_cleared document (after_fallback document cw).
Proof.
  unfold after_fallback. cbv zeta.
  destruct (_ || _); [apply cleared_none|].
  destruct (first_tag _ _ _) as [d|] eqn:E; [|apply cleared_none].
  eapply cleared_one; [|apply cleared_none].
  rewrite at_path_app. exact (found_is_selected _ _ E).
Qed.

Lemma cruise_location_cleared (divs : list ref) (second_div : path)
    (day_info : DayInfo) (document : node) :
  nth_error divs 1 = Some (Some second_div) ->
  returns (cruise_location divs day_info) document
    (fun _ document' => descr_cleared document document').
Proof.
  intros H1. unfold cruise_location. step.
  eapply returns_index; [exact H1|]. step. step. step.
  apply returns_weaken with (Q := fun _ document' => document' = document).
  { destruct (option_map _ _) as [h5|]; cbn [truthy]; steps; auto. }
  intros d ? ->. step. step.
  destruct (option_map _ _) as [cw|]; cbn [truthy];
    [|step; apply cleared_none].
  step. eapply returns_weaken; [apply resolve_description_put|].
  intros s document' ->.
  destruct (nonempty s); step; apply after_fallback_cleared.
Qed.

Lemma cruise_item_cleared (item : path) (items : list DayInfo)
    (document : node) :
  returns (cruise_item (Some item) items) document
    (fun _ document' => descr_cleared document document').
Proof.
  unfold cruise_item, cruise_scan. step. step. step.
  set (divs := map (fun q => Some _) _).
  destruct (2 <=? _) eqn:E; [|steps; apply cleared_none].
  destruct (two_found _ _ E) as (a & b & Ha & Hb). fold divs in Ha, Hb.
  step. eapply returns_weaken; [eapply cruise_day_spec, Ha|].
  intros [d|] ? [-> _]; [|steps; apply cleared_none].
  step. eapply returns_weaken; [eapply cruise_location_cleared, Hb|].
  intros d' document' H'. now steps.
Qed.

Lemma parse_cruise_cleared (document : node) :
  returns parse_cruise_itinerary_days document
    (fun _ document' => descr_cleared document document').
Proof.
  unfold parse_cruise_itinerary_days, soup. step. step. step.
  apply returns_weaken
    with (Q := fun (_ : ref) document' => document' = document).
  { destruct (option_map _ _); cbn [truthy negb]; now steps. }
  intros [container|] ? ->; cbn [truthy negb]; [|step; apply cleared_none].
  step. step.
  apply returns_for_each
    with (Inv := fun (_ : list DayInfo) document' =>
                   descr_cleared document document');
    [|apply cleared_none].
  intros x items document' Hx Hc. destruct (in_found _ _ _ Hx) as [q ->].
  eapply returns_weaken; [apply cruise_item_cleared|].
  intros items' document'' H'. exact (descr_cleared_trans Hc H').
Qed.

Lemma in_descendants_from (ks : list node) (i j : nat) (k : node) :
  nth_error ks i = Some k ->
  In ([j + i], k) (descendants_from j ks) /\
  forall q n, In (q, n) (descendants k) ->
    In ((j + i) :: q, n) (descendants_from j ks).
Proof.
  revert i j; induction ks as [|k0 ks IH]; intros [|i] j H; try discriminate;
    cbn [descendants_from].
  - injection H as ->. rewrite Nat.add_0_r. split; [now left|].
    intros q n Hq. right. apply in_or_app. left.
    apply in_map_iff. now exists (q, n).
  - cbn [nth_error] in H. destruct (IH i (S j) H) as [H1 H2].
    replace (j + S i) with (S j + i) by lia.
    split; [right; apply in_or_app; now right|].
    intros q n Hq. right. apply in_or_app. right. now apply H2.
Qed.

(** A node reached by a path is one of the descendants. *)
Lemma at_path_in_descendants (p : path) (t : node) :
  p <> [] -> at_path t p <> Gone -> In (p, at_path t p) (descendants t).
Proof.
  revert t; induction p as [|i p IH]; intros t Hp Hg; [congruence|].
  cbn [at_path] in *. destruct t as [s|n c ks|]; try congruence.
  destruct (nth_error ks i) as [k|] eqn:Hk; [|congruence].
  rewrite descendants_elem.
  destruct (in_descendants_from ks i 0 Hk) as [H1 H2]. cbn [Nat.add] in *.
  destruct p as [|i' p']; [exact H1|].
  apply H2. apply IH; [discriminate | exact Hg].
Qed.

Lemma descr_divs_plain_at (document : node) (p : path) :
  descr_divs_plain document = true ->
  descr (at_path document p) = true ->
  toggles_removed (at_path document p) = at_path document p.
Proof.
  intros Hplain Hd. unfold descr_divs_plain in Hplain.
  rewrite forallb_forall in Hplain.
  assert (Hin : In (p, at_path document p) (([], document) :: descendants document)).
  { destruct p as [|i p']; [now left|]. right.
    apply at_path_in_descendants; [discriminate|].
    intros E. rewrite E in Hd. discriminate. }
  apply Hplain in Hin. cbn [snd] in Hin. rewrite Hd in Hin. cbn [negb orb] in Hin.
  rewrite <- fold_remove_toggles.
  destruct (matching toggle _); [reflexivity | discriminate].
Qed.

Lemma descr_cleared_plain (document document' : node) :
  descr_divs_plain document = true ->
  descr_cleared document document' -> document' = document.
Proof.
  intros Hplain H. induction H as [t|t p after Hp _ IH]; [reflexivity|].
  assert (E : put_at t p (toggles_removed (at_path t p)) = t)
    by (rewrite (@descr_divs_plain_at t p Hplain Hp); apply put_at_same).
  rewrite E in IH. now apply IH.
Qed.

(** C9, as the code has it.  The two tour extractors leave the document
    exactly as they found it.  The cruise extractor changes it in one
    way only.  Resolving the description of a content wrapper leaves the
    document as it was when one of the two summary spans has text;
    otherwise, when the wrapper has a [descr] div, the [more] and [less]
    spans below the first such div are taken out of it and nothing else
    is touched.  So the document after the extractor comes from the
    document before by taking these spans out of [descr] divs, one div
    at a time; the two are the same once every [more] and [less] span is
    taken out; and a document in which no [descr] div has such a span
    below it, or which has no such span at all, is left exactly as it
    was. *)
Theorem extractors_leave_document
    (document : node) :
  returns parse_tour_itinerary_description document
    (fun _ document' => document' = document) /\
  returns parse_tour_itinerary_days document
    (fun _ document' => document' = document) /\
  returns parse_cruise_itinerary_days document
    (fun _ document' => without_toggles document' = without_toggles document) /\
  (without_toggles document = document ->
   returns parse_cruise_itinerary_days document
     (fun _ document' => document' = document)) /\
  (forall content_wrap,
     returns (resolve_description (Some content_wrap)) document
       (fun _ document' => document' = after_fallback document content_wrap)) /\
  returns parse_cruise_itinerary_days document
    (fun _ document' => descr_cleared document document') /\
  (descr_divs_plain document = true ->
   returns parse_cruise_itinerary_days document
     (fun _ document' => document' = document)).
Proof.
  split; [|split; [|split; [|split; [|split; [|split]]]]].
  - eexists _, _. split; [apply parse_tour_description_spec | reflexivity].
  - eapply returns_weaken; [apply parse_tour_spec|]. now intros ? ? [_ H].
  - eapply returns_weaken; [apply parse_cruise_spec|]. now intros ? ? [_ [H _]].
  - intros Hclean. eapply returns_weaken; [apply parse_cruise_spec|].
    intros ? ? [_ [_ H]]. now apply H.
  - intros cw. apply resolve_description_put.
  - apply parse_cruise_cleared.
  - intros Hplain. eapply returns_weaken; [apply parse_cruise_cleared|].
    intros ? ? H. exact (descr_cleared_plain Hplain H).
Qed.

Lemma extractors_leave_document_witness :
  returns parse_cruise_itinerary_days Samples.cruise_page
    (fun _ document' => document' = Samples.cruise_page) /\
  returns parse_cruise_itinerary_days Samples.shadowed_page
    (fun _ document' => document' = Samples.shadowed_page).
Proof.
  split.
  - apply (extractors_leave_document Samples.cruise_page). reflexivity.
  - destruct (extractors_leave_document Samples.shadowed_page)
      as (_ & _ & _ & _ & _ & _ & H).
    apply H. reflexivity.
Defined.

(** C9, as it is written, fails: on the sample page whose description
    sits in a [descr] div the cruise extractor returns a document that
    is not the one it was given, and whose text is not the same. *)
Lemma cruise_extractor_changes_document :
  exists items document',
    parse_cruise_itinerary_days Samples.toggle_page = Ok (items, document') /\
    document' <> Samples.toggle_page /\
    node_text document' <> node_text Samples.toggle_page.
Proof.
  eexists _, _. split; [vm_compute; reflexivity|].
  split; intros H; vm_compute in H; discriminate H.
Qed.

(** C10.  When the description node is there and its text is not empty
    and ends with a full stop, the one string of the summary does not
    end with a full stop. *)
Theorem summary_loses_final_period (document : node) (p : path) :
  first_tag (u "div") (u "ao-clp-custom-tdp-itinerary__description") document
  = Some p ->
  nonempty (node_text (at_path document p)) = true ->
  endswith 46%N (node_text (at_path document p)) = true ->
  exists s,
    parse_tour_itinerary_description document = Ok ([s], document) /\
    endswith 46%N s = false.
Proof.
  intros Hp _ _. eexists. split; [apply parse_tour_description_spec|].
  rewrite Hp. apply join_fragments_end, fragments_spec.
Qed.

Lemma summary_loses_final_period_witness :
  exists s,
    parse_tour_itinerary_description Samples.tour_page
    = Ok ([s], Samples.tour_page) /\
    endswith 46%N s = false.
Proof.
  apply (@summary_loses_final_period Samples.tour_page [0]); reflexivity.
Defined.

(* ================================================================== *)
(** * The sample pages, extracted *)
(* ================================================================== *)

Example cruise_page_itinerary :
  parse_cruise_itinerary_days Samples.cruise_page
  = Ok ([ Samples.record "3" "Nassau" "Explore the beaches.";
          Samples.record "4" "At Sea"
            "Day at sea - enjoy the ship's amenities and relax as you cruise to your next destination." ],
        Samples.cruise_page).
Proof. vm_compute. reflexivity. Qed.

Example sparse_page_itinerary :
  parse_cruise_itinerary_days Samples.sparse_page
  = Ok ([ Samples.record "2" "Miami"
            "Explore Miami and enjoy the local attractions and culture." ],
        Samples.sparse_page).
Proof. vm_compute. reflexivity. Qed.

Example tour_page_itinerary :
  parse_tour_itinerary_days Samples.tour_page
  = Ok ([ Samples.record "1" "Hanoi" "Arrive in Hanoi.";
          Samples.record "2" "Hoi An" "Visit the old town. Try local food.";
          Samples.record "4" "Saigon" "Free day in Saigon..." ],
        Samples.tour_page).
Proof. vm_compute. reflexivity. Qed.

Example tour_page_summary :
  parse_tour_itinerary_description Samples.tour_page
  = Ok ([u "From Hanoi to Saigon. Ten days by rail"], Samples.tour_page).
Proof. vm_compute. reflexivity. Qed.

(* ================================================================== *)
(** * More about the normalizer *)
(* ================================================================== *)

Lemma normal_nonempty (x : char) : nonempty (normal x) = true.
Proof.
  destruct (is_target x) eqn:Hx.
  - unfold is_target, targets, replacements in Hx. cbn [map fst existsb] in Hx.
    rewrite !orb_true_iff in Hx.
    destruct Hx as [H|[H|[H|[H|[H|[H|[H|H]]]]]]]; try discriminate;
      apply N.eqb_eq in H; subst x; reflexivity.
  - now rewrite (normal_other _ Hx).
Qed.

Lemma in_clean_plain (s : str) (y : char) :
  In y (clean s) -> is_target y = false.
Proof.
  rewrite clean_normal. intros Hy.
  apply in_flat_map in Hy as (x & _ & Hy). exact (normal_clear _ _ Hy).
Qed.

Lemma plain_text (s : str) :
  (forall y, In y s -> is_target y = false) -> has_target s = false.
Proof.
  intros H. unfold has_target.
  destruct (existsb (fun c => existsb (N.eqb c) targets) s) eqn:E;
    [|reflexivity].
  apply existsb_exists in E as (y & Hy & Ht).
  apply H in Hy. unfold is_target in Hy. congruence.
Qed.

(** X7.  A normalized text has none of the seven characters left. *)
Theorem clean_leaves_no_target (s : str) : has_target (clean s) = false.
Proof.
  apply plain_text. intros y Hy.
  exact (in_clean_plain s y Hy).
Qed.

(** X8.  Normalizing a text in two parts and putting the parts together
    gives the normalized whole. *)
Theorem clean_app (a b : str) : clean (a ++ b) = clean a ++ clean b.
Proof. rewrite !clean_normal. apply flat_map_app. Qed.

(** X9.  Normalizing never makes a text shorter, so a text that is not
    empty stays so. *)
Theorem clean_never_shortens (s : str) : length s <= length (clean s).
Proof.
  rewrite clean_normal. induction s as [|x s IH]; [reflexivity|].
  cbn [flat_map length]. rewrite length_app.
  pose proof (normal_nonempty x) as H.
  destruct (normal x); [discriminate|]. cbn [length]. lia.
Qed.

(* ================================================================== *)
(** * The page and the orchestrator *)
(* ================================================================== *)

Lemma determine_cases (url : str) :
  determine_scraper_type url = Some (u "cruise") \/
  determine_scraper_type url = Some (u "tour") \/
  determine_scraper_type url = None.
Proof.
  unfold determine_scraper_type.
  destruct (contains _ url); auto. destruct (contains _ url); auto.
Qed.

Lemma cruise_extraction (document : node) :
  exists items document',
    parse_cruise_itinerary_days document = Ok (items, document') /\
    Forall complete items /\
    (itinerary <- parse_cruise_itinerary_days ;;
     ret {| summary := [[]]; itinerary := itinerary |}) document
    = Ok ({| summary := [[]]; itinerary := items |}, document').
Proof.
  destruct (parse_cruise_spec document) as (items & document' & E & H & _).
  exists items, document'. repeat split; auto.
  unfold bind. now rewrite E.
Qed.

Lemma tour_extraction (document : node) :
  exists s items,
    parse_tour_itinerary_description document = Ok ([s], document) /\
    parse_tour_itinerary_days document = Ok (items, document) /\
    Forall complete items /\
    (summary <- parse_tour_itinerary_description ;;
     itinerary <- parse_tour_itinerary_days ;;
     ret {| summary := summary; itinerary := itinerary |}) document
    = Ok ({| summary := [s]; itinerary := items |}, document).
Proof.
  destruct (parse_tour_spec document) as (items & ? & E & H & ->).
  eexists _, items. split; [apply parse_tour_description_spec|].
  repeat split; auto.
  unfold bind. rewrite parse_tour_description_spec. now rewrite E.
Qed.

Section Outcomes.
Variable robots_url : str -> option str.
Variable http_get : str -> fetched.
Variable parse_html : str -> node.

(** X1.  [scrape_content] ends in one of five ways only.  It returns a
    result with exactly one summary string and complete records, after
    asking for the robots file and then for the page; or it raises the
    exception for an unrecognized address, or [ValueError], before
    asking for anything; or, after asking for both, it raises the
    exception of [fetch_page] for a [RequestException], or the exception
    of another class that the session raised, as it is.  No
    [AttributeError] or [IndexError] of an extractor comes out. *)
Theorem scrape_content_outcomes (url : str) :
  match scrape_content robots_url http_get parse_html url with
  | (Ok r, requested) =>
      length (summary r) = 1 /\ Forall complete (itinerary r) /\
      exists robots html,
        robots_url url = Some robots /\ http_get url = Fetched html /\
        requested = [robots; url]
  | (Raise e, requested) =>
      (e = unrecognized_url /\ requested = []) \/
      (e = ValueError /\ requested = []) \/
      (exists cause robots,
         http_get url = RequestException cause /\ e = fetch_failed cause /\
         requested = [robots; url]) \/
      (exists class_name robots,
         http_get url = Uncaught class_name /\ e = TransportError class_name /\
         requested = [robots; url])
  end.
Proof.
  unfold scrape_content, fetch_page.
  destruct (determine_cases url) as [E|[E|E]]; rewrite E; cbv iota beta zeta;
    [| |now left].
  - destruct (robots_url url) as [robots|]; [|now right; left].
    destruct (http_get url) as [html|cause|class_name] eqn:Eg.
    2:{ right; right; left. now exists cause, robots. }
    2:{ right; right; right. now exists class_name, robots. }
    replace (str_eqb (u "cruise") (u "cruise")) with true by reflexivity.
    destruct (cruise_extraction (parse_html html)) as (items & d' & _ & H & ->).
    cbn [summary itinerary length]. eauto 8.
  - destruct (robots_url url) as [robots|]; [|now right; left].
    destruct (http_get url) as [html|cause|class_name] eqn:Eg.
    2:{ right; right; left. now exists cause, robots. }
    2:{ right; right; right. now exists class_name, robots. }
    replace (str_eqb (u "tour") (u "cruise")) with false by reflexivity.
    destruct (tour_extraction (parse_html html)) as (s & items & _ & _ & H & ->).
    cbn [summary itinerary length]. eauto 8.
Qed.

(** X2.  For a cruise address whose page is fetched, the summary of the
    result is the one empty string and its itinerary is what the cruise
    extractor returns on the parsed page. *)
Theorem cruise_result_has_empty_summary (url robots html : str) :
  occurs_in (u "cruises.flightcentre") url ->
  robots_url url = Some robots ->
  http_get url = Fetched html ->
  exists items document',
    parse_cruise_itinerary_days (parse_html html) = Ok (items, document') /\
    scrape_content robots_url http_get parse_html url
    = (Ok {| summary := [[]]; itinerary := items |}, [robots; url]).
Proof.
  intros Hc Hr Hg. apply contains_occurs in Hc.
  destruct (cruise_extraction (parse_html html)) as (items & d' & E & _ & Hx).
  exists items, d'. split; [exact E|].
  unfold scrape_content, fetch_page, determine_scraper_type.
  rewrite Hc, Hr, Hg. cbv iota beta zeta.
  replace (str_eqb (u "cruise") (u "cruise")) with true by reflexivity.
  now rewrite Hx.
Qed.

(** X3.  For a recognized address, after the robots file and the page
    were asked for: when the fetch raises a [RequestException] (a
    network error, a timeout, a status that is not a success),
    [scrape_content] returns no result and raises the exception of
    [fetch_page] with the cause in its message; when the fetch raises an
    exception of another class, that exception comes out as it is, not
    wrapped. *)
Theorem fetch_failure_is_raised (url robots : str) :
  occurs_in (u "cruises.flightcentre") url \/
  occurs_in (u "tours.flightcentre") url ->
  robots_url url = Some robots ->
  (forall cause,
     http_get url = RequestException cause ->
     scrape_content robots_url http_get parse_html url
     = (Raise (fetch_failed cause), [robots; url])) /\
  (forall class_name,
     http_get url = Uncaught class_name ->
     scrape_content robots_url http_get parse_html url
     = (Raise (TransportError class_name), [robots; url])).
Proof.
  intros Hk Hr. unfold scrape_content, fetch_page.
  assert (exists kind, determine_scraper_type url = Some kind) as [kind ->].
  { unfold determine_scraper_type.
    destruct (contains (u "cruises.flightcentre") url) eqn:Ec; [eauto|].
    destruct Hk as [Hk|Hk]; apply contains_occurs in Hk; [congruence|].
    rewrite Hk. eauto. }
  cbv iota beta zeta. rewrite Hr.
  split; intros x Hg; now rewrite Hg.
Qed.

Lemma scrape_content_shape (url kind : str) :
  determine_scraper_type url = Some kind ->
  fst (scrape_content robots_url http_get parse_html url)
  <> Raise unrecognized_url.
Proof.
  intros E. unfold scrape_content, fetch_page. rewrite E. cbv iota beta zeta.
  destruct (robots_url url) as [robots|]; [|discriminate].
  destruct (http_get url) as [html|cause|class_name];
    [|intros [=]|discriminate].
  destruct (determine_cases url) as [E'|[E'|E']]; rewrite E' in E;
    [| |discriminate]; injection E as <-.
  - replace (str_eqb (u "cruise") (u "cruise")) with true by reflexivity.
    destruct (cruise_extraction (parse_html html)) as (? & ? & _ & _ & ->).
    discriminate.
  - replace (str_eqb (u "tour") (u "cruise")) with false by reflexivity.
    destruct (tour_extraction (parse_html html)) as (? & ? & _ & _ & _ & ->).
    discriminate.
Qed.

(** X4.  The page works out the kind of the address exactly as
    [determine_scraper_type] does, so whenever the button is enabled
    [scrape_content] does not raise the exception for an unrecognized
    address. *)
Theorem main_agrees_with_classifier (url : str) :
  main_scraper_type url = determine_scraper_type url /\
  (truthy (main_scraper_type url) = true ->
   fst (scrape_content robots_url http_get parse_html url)
   <> Raise unrecognized_url).
Proof.
  assert (Hsame : main_scraper_type url = determine_scraper_type url).
  { unfold main_scraper_type, determine_scraper_type.
    destruct url as [|c url]; reflexivity. }
  split; [exact Hsame|]. rewrite Hsame. intros Ht.
  pose proof (scrape_content_shape url) as H.
  destruct (determine_scraper_type url) as [kind|] eqn:E; [|discriminate].
  exact (H kind eq_refl).
Qed.

End Outcomes.

(* ================================================================== *)
(** * The name of the download *)
(* ================================================================== *)

Lemma split_nonempty (sep : char) (s : str) : split sep s <> [].
Proof.
  destruct s as [|c s]; cbn [split]; [discriminate|].
  destruct (N.eqb c sep); [discriminate|]. now destruct (split sep s).
Qed.

Lemma split_app_sep (sep : char) (a b : str) :
  split sep (a ++ sep :: b) = split sep a ++ split sep b.
Proof.
  induction a as [|c a IH]; cbn [app split].
  - now rewrite N.eqb_refl.
  - rewrite IH. destruct (N.eqb c sep); [reflexivity|].
    pose proof (split_nonempty sep a) as H.
    destruct (split sep a); [contradiction | reflexivity].
Qed.

Lemma split_no_sep (sep : char) (s : str) : ~ In sep s -> split sep s = [s].
Proof.
  induction s as [|c s IH]; intros H; cbn [split]; [reflexivity|].
  destruct (N.eqb_spec c sep) as [->|_]; [exfalso; apply H; now left|].
  rewrite IH; [reflexivity|]. intros Hs. apply H. now right.
Qed.

Lemma index_from_end_in {A} (l : list A) (k : nat) (a : A) :
  index_from_end l k = Ok a -> In a l.
Proof.
  unfold index_from_end. destruct (nth_error _ _) eqn:E; [|discriminate].
  intros [= <-]. apply in_rev. exact (nth_error_In _ _ E).
Qed.

Lemma index_from_end_some {A} (l : list A) (k : nat) :
  k <= length l -> 1 <= k -> exists a, index_from_end l k = Ok a.
Proof.
  intros Hk H1. unfold index_from_end.
  destruct (nth_error (rev l) (k - 1)) eqn:E; [eauto|].
  apply nth_error_None in E. rewrite length_rev in E. lia.
Qed.

Lemma piece_has_no_slash (url piece : str) :
  In piece (split 47%N url) -> ~ In 47%N piece.
Proof.
  intros H. exact (proj1 (Forall_forall _ _) (split_pieces 47%N url) _ H).
Qed.

(** X5.  The name of the download is always worked out, without an
    [IndexError]: it is the kind of page, [_data_], a part and [.json].
    The part is not empty when the kind is not, and has no slash in it
    when the kind has none. *)
Theorem download_name_is_safe (url scraper_type : str) :
  exists part,
    filename_part url scraper_type = Ok part /\
    download_file_name url scraper_type
    = Ok (scraper_type ++ u "_data_" ++ part ++ u ".json") /\
    (nonempty scraper_type = true -> nonempty part = true) /\
    (~ In 47%N scraper_type -> ~ In 47%N part).
Proof.
  assert (Hchosen : exists chosen,
            (if 2 <? length (split 47%N url) then
               match index_from_end (split 47%N url) 2 with
               | Raise e => Raise e
               | Ok before_last =>
                   if nonempty before_last
                   then index_from_end (split 47%N url) 2
                   else index_from_end (split 47%N url) 1
               end
             else index_from_end (split 47%N url) 1) = Ok chosen /\
            In chosen (split 47%N url)).
  { pose proof (split_nonempty 47%N url) as Hne.
    assert (H1 : 1 <= length (split 47%N url))
      by (destruct (split 47%N url); [contradiction | cbn; lia]).
    destruct (index_from_end_some (split 47%N url) H1 (le_n 1)) as [z Ez].
    destruct (2 <? length (split 47%N url)) eqn:E.
    - apply Nat.ltb_lt in E.
      destruct (@index_from_end_some _ (split 47%N url) 2) as [y Ey]; [lia..|].
      rewrite Ey. destruct (nonempty y).
      + exists y. split; [reflexivity | exact (index_from_end_in _ _ Ey)].
      + exists z. split; [exact Ez | exact (index_from_end_in _ _ Ez)].
    - exists z. split; [exact Ez | exact (index_from_end_in _ _ Ez)]. }
  destruct Hchosen as (chosen & E & Hin).
  unfold download_file_name, filename_part. cbv zeta. rewrite E.
  eexists. split; [reflexivity|]. split; [reflexivity|].
  destruct (nonempty chosen) eqn:En; cbn [negb]; split; auto.
  intros _. exact (piece_has_no_slash _ _ Hin).
Qed.

(** X6.  The part is the piece of the address before its last slash:
    for an address that ends with [/a/b], where [a] is not empty and
    neither [a] nor [b] has a slash, it is [a], whether [b] is empty
    (the address ends with a slash) or not. *)
Theorem download_name_from_address (before a b scraper_type : str) :
  nonempty a = true -> ~ In 47%N a -> ~ In 47%N b ->
  download_file_name (before ++ 47%N :: a ++ 47%N :: b) scraper_type
  = Ok (scraper_type ++ u "_data_" ++ a ++ u ".json").
Proof.
  intros Ha Hna Hnb. unfold download_file_name, filename_part.
  rewrite !split_app_sep, (@split_no_sep 47%N a Hna), (@split_no_sep 47%N b Hnb).
  cbv zeta.
  assert (Hlen : (2 <? length (split 47%N before ++ [a] ++ [b])) = true).
  { apply Nat.ltb_lt. rewrite !length_app. cbn [length].
    pose proof (split_nonempty 47%N before).
    destruct (split 47%N before); [contradiction | cbn; lia]. }
  rewrite Hlen.
  assert (H2 : index_from_end (split 47%N before ++ [a] ++ [b]) 2 = Ok a).
  { unfold index_from_end. now rewrite !rev_app_distr. }
  rewrite H2. cbv iota beta. rewrite Ha. cbv iota beta. rewrite Ha. reflexivity.
Qed.

Lemma download_name_from_address_witness :
  download_file_name (u "https://tours.flightcentre.com.au/t/1842") (u "tour")
  = Ok (u "tour_data_t.json") /\
  download_file_name
    (u "https://cruises.flightcentre.com.au/cruises/msc-opera-2026/")
    (u "cruise")
  = Ok (u "cruise_data_msc-opera-2026.json").
Proof.
  split.
  - apply (@download_name_from_address
             (u "https://tours.flightcentre.com.au") (u "t") (u "1842")
             (u "tour")).
    + reflexivity.
    + vm_compute. intuition discriminate.
    + vm_compute. intuition discriminate.
  - apply (@download_name_from_address
             (u "https://cruises.flightcentre.com.au/cruises")
             (u "msc-opera-2026") [] (u "cruise")).
    + reflexivity.
    + vm_compute. intuition discriminate.
    + vm_compute. intuition.
Defined.

(* ================================================================== *)
(** * What the patterns capture *)
(* ================================================================== *)

Lemma after_literal_app (p s : str) : Re.after_literal p (p ++ s) = Some s.
Proof.
  induction p as [|x p IH]; cbn [app Re.after_literal]; [now destruct s|].
  now rewrite N.eqb_refl.
Qed.

(** A run stops at the first character that is not of its kind. *)
Lemma take_while_run (f : char -> bool) (a b : str) :
  forallb f a = true ->
  match b with [] => True | c :: _ => f c = false end ->
  take_while f (a ++ b) = a.
Proof.
  intros Ha Hb. induction a as [|x a IH]; cbn [app].
  - destruct b as [|c b]; [reflexivity|]. cbn [take_while]. now rewrite Hb.
  - cbn [forallb] in Ha. apply andb_true_iff in Ha as [Hx Ha].
    cbn [take_while]. rewrite Hx. f_equal. now apply IH.
Qed.

Lemma firstn_of_run (f : char -> bool) (n : nat) (r : str) :
  n <= length (take_while f r) -> forallb f (firstn n r) = true.
Proof.
  revert n; induction r as [|c r IH]; intros [|n] H; try reflexivity.
  cbn [take_while] in H. destruct (f c) eqn:E; cbn [length] in H; [|lia].
  cbn [firstn forallb]. rewrite E. apply IH. lia.
Qed.

Lemma digits_then_colon_le (j : nat) (r : str) (n : nat) :
  Re.digits_then_colon j r = Some n -> n <= j.
Proof.
  induction j as [|j IH]; cbn [Re.digits_then_colon]; [discriminate|].
  destruct (nth_error r (S j)) as [c|].
  - destruct (N.eqb c 58); [intros [= <-]; lia | intros H; apply IH in H; lia].
  - intros H; apply IH in H; lia.
Qed.

Lemma skipn_app_length {A} (a b : list A) : skipn (length a) (a ++ b) = b.
Proof. induction a; [reflexivity | assumption]. Qed.

Lemma skipn_past {A} (a : list A) (x : A) (b : list A) :
  skipn (S (length a)) (a ++ x :: b) = b.
Proof. induction a; [reflexivity | assumption]. Qed.

Lemma firstn_app_length {A} (a b : list A) : firstn (length a) (a ++ b) = a.
Proof. induction a as [|x a IH]; [reflexivity | cbn; now rewrite IH]. Qed.

Lemma nth_error_app_length {A} (a b : list A) :
  nth_error (a ++ b) (length a) = nth_error b 0.
Proof. induction a; [reflexivity | assumption]. Qed.

(** No white-space character is a decimal digit. *)
Lemma digit_not_space (c : char) : is_digit c = true -> is_space c = false.
Proof.
  intros Hd. destruct (is_space c) eqn:Hs; [|reflexivity].
  unfold is_space, whitespace in Hs. cbn [existsb] in Hs.
  repeat (apply orb_true_iff in Hs as [Hs|Hs];
          [apply N.eqb_eq in Hs; subst c; vm_compute in Hd; discriminate|]).
  discriminate.
Qed.

Lemma search_day_colon_unfold (s : str) :
  Re.search_day_colon s
  = match Re.match_day_colon s with
    | Some (digits, _) => Some {| Re.group1 := digits |}
    | None => match s with [] => None | _ :: s' => Re.search_day_colon s' end
    end.
Proof. destruct s; reflexivity. Qed.

Lemma search_day_unfold (s : str) :
  Re.search_day s
  = match Re.match_day s with
    | Some m => Some m
    | None => match s with [] => None | _ :: s' => Re.search_day s' end
    end.
Proof. destruct s; reflexivity. Qed.

(** X10.  A tour title that starts with [Day ], a run of digits and a
    colon gives that run as the day and, as the title, what follows the
    colon without its leading white space. *)
Theorem day_prefix_is_split (digits rest : str) :
  nonempty digits = true ->
  forallb is_digit digits = true ->
  Re.search_day_colon (u "Day " ++ digits ++ 58%N :: rest)
  = Some {| Re.group1 := digits |} /\
  Re.sub_day_prefix (u "Day " ++ digits ++ 58%N :: rest)
  = drop_while is_space rest.
Proof.
  intros Hn Hd.
  assert (Hm : Re.match_day_colon (u "Day " ++ digits ++ 58%N :: rest)
               = Some (digits, rest)).
  { unfold Re.match_day_colon. rewrite after_literal_app.
    rewrite (take_while_run is_digit digits (58%N :: rest) Hd)
      by reflexivity.
    destruct digits as [|d ds] eqn:E; [discriminate|]. rewrite <- E.
    assert (El : length digits = S (length ds)) by now subst.
    rewrite El. cbn [Re.digits_then_colon]. rewrite <- El.
    rewrite nth_error_app_length. cbn [nth_error]. rewrite N.eqb_refl.
    now rewrite firstn_app_length, skipn_past. }
  split.
  - now rewrite search_day_colon_unfold, Hm.
  - unfold Re.sub_day_prefix. now rewrite Hm.
Qed.

Lemma day_prefix_is_split_witness :
  Re.search_day_colon (u "Day 12:  Hoi An") = Some {| Re.group1 := u "12" |} /\
  Re.sub_day_prefix (u "Day 12:  Hoi An") = u "Hoi An".
Proof.
  apply (@day_prefix_is_split (u "12") (u "  Hoi An")); reflexivity.
Defined.

(** X11.  A cruise heading that starts with [Day], a run of white space and a
    run of digits that ends the text or is followed by something else
    than a digit gives that run of digits as the day, whatever comes
    after it. *)
Theorem day_heading_is_read (spaces digits rest : str) :
  nonempty spaces = true -> forallb is_space spaces = true ->
  nonempty digits = true -> forallb is_digit digits = true ->
  match rest with [] => True | c :: _ => is_digit c = false end ->
  Re.search_day (u "Day" ++ spaces ++ digits ++ rest)
  = Some {| Re.group1 := digits |}.
Proof.
  intros Hns Hs Hnd Hd Hrest.
  rewrite search_day_unfold. unfold Re.match_day. rewrite after_literal_app.
  assert (Hrun : take_while is_space (spaces ++ digits ++ rest) = spaces).
  { apply take_while_run; [exact Hs|].
    destruct digits as [|d ds]; [discriminate|]. cbn [app].
    cbn [forallb] in Hd. apply andb_true_iff in Hd as [Hd _].
    now apply digit_not_space. }
  rewrite Hrun. destruct spaces as [|s0 ss] eqn:E; [discriminate|].
  rewrite <- E. assert (El : length spaces = S (length ss)) by now subst.
  rewrite El. cbn [Re.spaces_then_digits]. rewrite <- El.
  rewrite skipn_app_length, (take_while_run is_digit digits rest Hd Hrest).
  now rewrite Hnd.
Qed.

Lemma day_heading_is_read_witness :
  Re.search_day (u "Day 3 - Mon 4 May") = Some {| Re.group1 := u "3" |}.
Proof.
  apply (@day_heading_is_read (u " ") (u "3") (u " - Mon 4 May"));
    reflexivity.
Defined.

(* ================================================================== *)
(** * The loops, item by item *)
(* ================================================================== *)

Lemma returns_gives {A} (m : M A) (document : node) (Q : A -> node -> Prop)
    (a : A) (document' : node) :
  returns m document Q -> m document = Ok (a, document') -> Q a document'.
Proof. intros (a' & d' & E' & H) E. congruence. Qed.

Lemma returns_raises {A} (m : M A) (document : node) (Q : A -> node -> Prop)
    (e : exn) :
  returns m document Q -> m document = Raise e -> False.
Proof. intros (a' & d' & E' & H) E. congruence. Qed.

Lemma flat_map_map {A B C} (f : B -> list C) (g : A -> B) (l : list A) :
  flat_map f (map g l) = flat_map (fun x => f (g x)) l.
Proof. induction l as [|x l IH]; [reflexivity | cbn; now rewrite IH]. Qed.

(** A loop whose rounds add to the list and leave the document alone
    puts their additions one after the other. *)
Lemma for_each_concat {X R} (l : list X) (body : X -> list R -> M (list R))
    (f : X -> list R) (document : node) :
  (forall x acc, In x l -> body x acc document = Ok (acc ++ f x, document)) ->
  forall acc,
    for_each l body acc document = Ok (acc ++ flat_map f l, document).
Proof.
  induction l as [|x l IH]; intros H acc; cbn [for_each flat_map].
  - unfold ret. now rewrite app_nil_r.
  - unfold bind. rewrite H by (now left).
    rewrite IH by (intros; apply H; now right). now rewrite app_assoc.
Qed.

Lemma parse_cruise_loop (document : node) :
  parse_cruise_itinerary_days document
  = for_each (map Some (cruise_day_items document)) cruise_item [] document.
Proof.
  unfold parse_cruise_itinerary_days, cruise_day_items, cruise_container,
    first_tag, soup, bind, find, find_all, on_tag.
  cbn [option_map app at_path].
  destruct (hd_error _) as [c|]; cbn [option_map truthy negb].
  - unfold ret. cbn [truthy negb]. now rewrite map_map.
  - destruct (hd_error _) as [c|]; cbn [option_map truthy negb];
      [now rewrite map_map | reflexivity].
Qed.

Lemma parse_tour_loop (document : node) :
  parse_tour_itinerary_days document
  = for_each (map Some (tour_rows document)) tour_item [] document.
Proof.
  unfold parse_tour_itinerary_days, tour_rows, first_tag, soup, bind, find,
    find_all, on_tag.
  cbn [option_map app at_path].
  destruct (hd_error _) as [sec|]; cbn [option_map truthy negb];
    [now rewrite map_map | reflexivity].
Qed.

Lemma texts_of_value (b : path) (l : list path) (document : node)
    (acc : list str) :
  for_each (map (fun q => Some (b ++ q)) l)
    (fun p texts => t <- get_text p ;; ret (texts ++ [t])) acc document
  = Ok (acc ++ map (fun q => node_text (at_path (at_path document b) q)) l,
        document).
Proof.
  revert acc; induction l as [|q l IH]; intros acc; cbn [map for_each].
  - unfold ret. now rewrite app_nil_r.
  - unfold bind at 1. unfold bind at 1. cbn. rewrite IH, at_path_app.
    now rewrite <- app_assoc.
Qed.

(** The title of a row is read from the row alone. *)
Lemma tour_title_local (p : path) (day_info : DayInfo) (document : node) :
  tour_title (Some p) day_info document
  = match tour_title soup day_info (at_path document p) with
    | Ok (f, _) => Ok (f, document)
    | Raise e => Raise e
    end.
Proof.
  unfold tour_title, soup, bind, find, get_text, group, on_tag, ret.
  cbn [app option_map at_path].
  destruct (hd_error _) as [t|]; cbn [option_map truthy app]; [|reflexivity].
  rewrite !at_path_app.
  destruct (hd_error _) as [a|]; cbn [option_map truthy app].
  - rewrite !at_path_app.
    destruct (Re.search_day_colon _) as [m|]; reflexivity.
  - destruct (Re.search_day_colon _) as [m|]; reflexivity.
Qed.

(** And so is its body. *)
Lemma tour_body_local (p : path) (day_info : DayInfo) (document : node) :
  tour_body (Some p) day_info document
  = match tour_body soup day_info (at_path document p) with
    | Ok (d, _) => Ok (d, document)
    | Raise e => Raise e
    end.
Proof.
  unfold tour_body, soup, bind, find, find_all, get_text, on_tag, ret.
  cbn [app option_map at_path].
  destruct (hd_error _) as [c|]; cbn [option_map truthy app]; [|reflexivity].
  rewrite !at_path_app.
  destruct (matching _ _) as [|q l] eqn:E; cbn [map nonempty_list].
  - now rewrite at_path_app.
  - unfold texts_of.
    rewrite <- !(map_cons (fun q0 => Some (_ ++ q0))).
    rewrite !texts_of_value. now rewrite !at_path_app.
Qed.

Lemma tour_keep_app (d : DayInfo) (items : list DayInfo) :
  tour_keep d items = items ++ tour_keep d [].
Proof.
  unfold tour_keep. destruct (_ && _); [reflexivity | now rewrite app_nil_r].
Qed.

Lemma tour_item_local (p : path) (items : list DayInfo) (document : node) :
  tour_item (Some p) items document
  = Ok (items ++ row_alone (at_path document p), document).
Proof.
  unfold row_alone, tour_item, bind. rewrite tour_title_local. unfold soup.
  pose proof (tour_title_spec [] new_day_info (at_path document p)) as Ht.
  destruct (tour_title _ _ (at_path document p)) as [[f d1]|e] eqn:E;
    [|now apply (returns_raises Ht) in E].
  apply (returns_gives Ht) in E as [-> _].
  destruct f as [d|]; [|unfold ret; now rewrite app_nil_r].
  rewrite tour_body_local. unfold soup.
  pose proof (tour_body_spec [] d (at_path document p)) as Hb.
  destruct (tour_body _ _ (at_path document p)) as [[d' d2]|e] eqn:E';
    [|now apply (returns_raises Hb) in E'].
  apply (returns_gives Hb) in E' as [-> _].
  unfold ret. now rewrite tour_keep_app.
Qed.

Lemma row_alone_short (row : node) : length (row_alone row) <= 1.
Proof.
  unfold row_alone.
  pose proof (tour_item_spec [] [] row) as Hi. unfold soup.
  destruct (tour_item _ _ row) as [[items d]|e] eqn:E; [|cbn; lia].
  apply (returns_gives Hi) in E as [_ [->|(r & -> & _)]]; cbn; lia.
Qed.

(** X13.  The itinerary of a tour page is made row by row, in document
    order, from the accordion rows of the first tour-itinerary section
    and from nothing else: each row adds what it yields when it is
    extracted as a document of its own, which is at most one record, the
    rows are neither reordered nor merged, and the document is left as
    it was. *)
Theorem tour_itinerary_row_by_row (document : node) :
  parse_tour_itinerary_days document
  = Ok (flat_map (fun row => row_alone (at_path document row))
          (tour_rows document), document) /\
  forall row, length (row_alone row) <= 1.
Proof.
  split; [|exact row_alone_short].
  rewrite parse_tour_loop.
  rewrite (@for_each_concat _ _ (map Some (tour_rows document)) tour_item
             (fun x => match x with
                       | Some p => row_alone (at_path document p)
                       | None => []
                       end) document).
  - cbn [app]. now rewrite flat_map_map.
  - intros x acc Hx. apply in_map_iff in Hx as (p & <- & _).
    apply tour_item_local.
Qed.

Lemma cruise_keep_app (d : DayInfo) (items : list DayInfo) :
  cruise_keep d items = items ++ cruise_keep d [].
Proof.
  unfold cruise_keep. destruct (_ && _); [reflexivity | now rewrite app_nil_r].
Qed.

Lemma cruise_item_alone (p : path) (items : list DayInfo) (document : node) :
  without_toggles document = document ->
  cruise_item (Some p) items document
  = Ok (items ++ day_records document p, document).
Proof.
  intros Hclean. unfold day_records, cruise_item, bind.
  pose proof (cruise_scan_spec p document) as Hs.
  destruct (cruise_scan (Some p) document) as [[f d1]|e] eqn:E;
    [|now apply (returns_raises Hs) in E].
  apply (returns_gives Hs) in E as [_ H]. rewrite (H Hclean).
  destruct f as [d|]; unfold ret;
    [now rewrite cruise_keep_app | now rewrite app_nil_r].
Qed.

(** X14.  On a cruise page without [more] and [less] spans the itinerary
    is made day item by day item, in document order: each date-list item
    of the container adds what the loop body yields for it on an empty
    list, the items are neither reordered nor merged, and the document
    is left as it was. *)
Theorem cruise_itinerary_item_by_item (document : node) :
  without_toggles document = document ->
  parse_cruise_itinerary_days document
  = Ok (flat_map (day_records document) (cruise_day_items document), document).
Proof.
  intros Hclean. rewrite parse_cruise_loop.
  rewrite (@for_each_concat _ _ (map Some (cruise_day_items document))
             cruise_item
             (fun x => match x with
                       | Some p => day_records document p
                       | None => []
                       end) document).
  - cbn [app]. now rewrite flat_map_map.
  - intros x acc Hx. apply in_map_iff in Hx as (p & <- & _).
    now apply cruise_item_alone.
Qed.

Lemma cruise_itinerary_item_by_item_witness :
  parse_cruise_itinerary_days Samples.cruise_page
  = Ok (flat_map (day_records Samples.cruise_page)
          (cruise_day_items Samples.cruise_page), Samples.cruise_page).
Proof.
  apply (@cruise_itinerary_item_by_item Samples.cruise_page). reflexivity.
Defined.

Lemma for_each_adds_at_most {X R} (l : list X)
    (body : X -> list R -> M (list R)) :
  (forall x acc document, In x l ->
     returns (body x acc) document
       (fun acc' _ => length acc' <= S (length acc))) ->
  forall acc document,
    returns (for_each l body acc) document
      (fun acc' _ => length acc' <= length acc + length l).
Proof.
  induction l as [|x l IH]; intros H acc document; cbn [for_each length].
  - apply returns_ret. lia.
  - apply returns_bind.
    eapply returns_weaken; [apply H; now left|].
    intros acc1 document1 H1. cbv beta in H1 |- *.
    eapply returns_weaken; [apply IH; intros; apply H; now right|].
    intros acc2 ? H2. cbv beta in H2. lia.
Qed.

(** X16.  Neither extractor returns more records than the page has day
    items: the cruise itinerary is no longer than the list of date-list
    items of the container, the tour itinerary no longer than the list
    of accordion rows of the itinerary section. *)
Theorem at_most_one_record_per_item (document : node) :
  returns parse_cruise_itinerary_days document
    (fun items _ => length items <= length (cruise_day_items document)) /\
  returns parse_tour_itinerary_days document
    (fun items _ => length items <= length (tour_rows document)).
Proof.
  split.
  - unfold returns. rewrite parse_cruise_loop.
    rewrite <- (length_map Some (cruise_day_items document)).
    apply (@for_each_adds_at_most _ _ (map Some (cruise_day_items document))
             cruise_item).
    intros x acc d Hx. apply in_map_iff in Hx as (p & <- & _).
    eapply returns_weaken; [apply cruise_item_spec|].
    intros acc' ? [_ [->|(r & -> & _)]]; [lia|].
    rewrite length_app. cbn. lia.
  - unfold returns. rewrite parse_tour_loop.
    rewrite <- (length_map Some (tour_rows document)).
    apply (@for_each_adds_at_most _ _ (map Some (tour_rows document))
             tour_item).
    intros x acc d Hx. apply in_map_iff in Hx as (p & <- & _).
    eapply returns_weaken; [apply tour_item_spec|].
    intros acc' ? [_ [->|(r & -> & _)]]; [lia|].
    rewrite length_app. cbn. lia.
Qed.

(** X15.  When one of the two summary spans of a content wrapper has
    text, the description is that text, the nested one first, and the
    document is left as it was: toggle buttons are decomposed only when
    both summaries are missing or empty. *)
Theorem summary_found_leaves_document (content_wrap : path) (document : node) :
  nonempty (nested_summary (at_path document content_wrap)) = true \/
  nonempty (plain_summary (at_path document content_wrap)) = true ->
  resolve_description (Some content_wrap) document
  = Ok (if nonempty (nested_summary (at_path document content_wrap))
        then nested_summary (at_path document content_wrap)
        else plain_summary (at_path document content_wrap), document).
Proof.
  intros H. unfold resolve_description, bind.
  pose proof (first_try_spec content_wrap document) as H1.
  destruct (first_try _ _ document) as [[a d1]|e] eqn:E1;
    [|now apply (returns_raises H1) in E1].
  apply (returns_gives H1) in E1 as [-> ->].
  pose proof (second_try_spec content_wrap
                (nested_summary (at_path document content_wrap)) document) as H2.
  destruct (second_try _ _ document) as [[b d2]|e] eqn:E2;
    [|now apply (returns_raises H2) in E2].
  apply (returns_gives H2) in E2 as [-> ->].
  unfold third_try.
  destruct (nonempty (nested_summary _)) eqn:Ea.
  - rewrite Ea. reflexivity.
  - destruct H as [H|H]; [discriminate|]. rewrite H. reflexivity.
Qed.

Lemma summary_found_leaves_document_witness :
  resolve_description (Some [0; 0; 1; 1]) Samples.cruise_page
  = Ok (u "Explore the beaches.", Samples.cruise_page).
Proof.
  apply (@summary_found_leaves_document [0; 0; 1; 1] Samples.cruise_page).
  left. reflexivity.
Defined.

(* ================================================================== *)
(** * The fields of a record *)
(* ================================================================== *)

Lemma spaces_then_digits_all (k : nat) (r : str) (m : Re.Match) :
  Re.spaces_then_digits k r = Some m -> forallb is_digit (Re.group1 m) = true.
Proof.
  induction k as [|k IH]; cbn [Re.spaces_then_digits]; [discriminate|].
  destruct (nonempty _); [|exact IH].
  intros [= <-]. apply take_while_all.
Qed.

Lemma search_day_all (s : str) (m : Re.Match) :
  Re.search_day s = Some m -> forallb is_digit (Re.group1 m) = true.
Proof.
  induction s as [|c s IH]; rewrite search_day_unfold.
  - unfold Re.match_day. cbn. discriminate.
  - destruct (Re.match_day (c :: s)) as [m'|] eqn:E; [|exact IH].
    intros [= <-]. unfold Re.match_day in E.
    destruct (Re.after_literal _ _); [|discriminate].
    exact (spaces_then_digits_all _ _ E).
Qed.

Lemma match_day_colon_all (s digits rest : str) :
  Re.match_day_colon s = Some (digits, rest) -> forallb is_digit digits = true.
Proof.
  unfold Re.match_day_colon.
  destruct (Re.after_literal _ s) as [r|]; [|discriminate].
  destruct (Re.digits_then_colon _ r) as [n|] eqn:E; [|discriminate].
  intros [= <- _]. apply firstn_of_run. exact (digits_then_colon_le _ _ E).
Qed.

Lemma search_day_colon_all (s : str) (m : Re.Match) :
  Re.search_day_colon s = Some m -> forallb is_digit (Re.group1 m) = true.
Proof.
  induction s as [|c s IH]; rewrite search_day_colon_unfold.
  - destruct (Re.match_day_colon []) as [[d rest]|] eqn:E; [|discriminate].
    intros [= <-]. exact (match_day_colon_all _ E).
  - destruct (Re.match_day_colon (c :: s)) as [[d rest]|] eqn:E; [|exact IH].
    intros [= <-]. exact (match_day_colon_all _ E).
Qed.

Lemma shaped_added (items items' : list DayInfo) (d : DayInfo) :
  shaped d -> Forall shaped items ->
  items' = items \/ items' = items ++ [d] -> Forall shaped items'.
Proof.
  intros Hd H [->| ->]; [exact H|].
  apply Forall_app. split; [exact H | now constructor].
Qed.

Lemma tour_title_shape (item : path) (day_info : DayInfo) (document : node) :
  returns (tour_title (Some item) day_info) document
    (fun f _ =>
       match f with
       | Continue => True
       | Next d =>
           icon d = icon day_info /\ image d = image day_info /\
           forallb is_digit (day d) = true
       end).
Proof.
  unfold tour_title. step. step.
  destruct (option_map _ _) as [title_elem|]; cbn [truthy]; [|now step].
  step. step. step. step.
  set (arrow := option_map _ _). clearbody arrow.
  apply returns_bind.
  apply returns_weaken with (Q := fun _ _ => True).
  { destruct arrow as [a|]; cbn [truthy]; steps; exact I. }
  intros title_text ? _.
  destruct (Re.search_day_colon (clean title_text)) as [m|] eqn:E;
    cbn [truthy]; [|now step].
  steps. repeat split. exact (search_day_colon_all _ E).
Qed.

Lemma tour_body_shape (item : path) (day_info : DayInfo) (document : node) :
  returns (tour_body (Some item) day_info) document
    (fun d _ =>
       icon d = icon day_info /\ image d = image day_info /\
       day d = day day_info).
Proof.
  unfold tour_body. step. step.
  destruct (option_map _ _) as [content|]; cbn [truthy]; [|now steps].
  step. step. apply returns_bind.
  apply returns_weaken with (Q := fun _ _ => True).
  - destruct (nonempty_list _); [|now steps].
    step. eapply returns_weaken; [apply texts_of_spec|].
    intros texts ? _. now steps.
  - intros body_text ? _. now steps.
Qed.

Lemma tour_item_shape (item : path) (items : list DayInfo) (document : node) :
  Forall shaped items ->
  returns (tour_item (Some item) items) document
    (fun items' _ => Forall shaped items').
Proof.
  intros Hs. unfold tour_item. apply returns_bind.
  eapply returns_weaken; [apply tour_title_shape|].
  intros [d|] ? H; [|now step].
  apply returns_bind.
  eapply returns_weaken; [apply tour_body_shape|].
  intros d' ? (Hi & Hm & Hd). step.
  destruct H as (Hi' & Hm' & Hd').
  apply (@shaped_added items _ d'); [|exact Hs|].
  - repeat split; cbn in *; congruence.
  - unfold tour_keep. destruct (_ && _); auto.
Qed.

Lemma cruise_day_shape (divs : list ref) (first_div : path)
    (day_info : DayInfo) (document : node) :
  nth_error divs 0 = Some (Some first_div) ->
  shaped day_info ->
  returns (cruise_day divs day_info) document
    (fun f _ => match f with Continue => True | Next d => shaped d end).
Proof.
  intros H0 Hs. unfold cruise_day. step.
  eapply returns_index; [exact H0|]. step. step.
  destruct (option_map _ _) as [h5|]; cbn [truthy]; [|now step].
  step. step. destruct (Re.search_day _) as [m|] eqn:E; cbn [truthy];
    [|now step].
  steps. destruct Hs as (Hi & Hm & _).
  repeat split; auto. exact (search_day_all _ E).
Qed.

Lemma cruise_location_shape (divs : list ref) (second_div : path)
    (day_info : DayInfo) (document : node) :
  nth_error divs 1 = Some (Some second_div) ->
  shaped day_info ->
  returns (cruise_location divs day_info) document (fun d _ => shaped d).
Proof.
  intros H1 Hs. unfold cruise_location. step.
  eapply returns_index; [exact H1|]. step. step. step.
  apply returns_weaken with (Q := fun d _ => shaped d).
  { destruct (option_map _ _) as [h5|]; cbn [truthy]; steps; exact Hs. }
  intros d ? Hd. step. step.
  destruct (option_map _ _) as [cw|]; cbn [truthy]; [|now step].
  step. eapply returns_weaken; [apply resolve_description_spec|].
  intros s ? _. destruct (nonempty s); step; exact Hd.
Qed.

Lemma at_sea_shape (d : DayInfo) : shaped d -> shaped (at_sea d).
Proof. unfold at_sea. now destruct (_ && _). Qed.

Lemma new_day_info_shape : shaped new_day_info.
Proof. now repeat split. Qed.

Lemma cruise_item_shape (item : path) (items : list DayInfo) (document : node) :
  Forall shaped items ->
  returns (cruise_item (Some item) items) document
    (fun items' _ => Forall shaped items').
Proof.
  intros Hs. unfold cruise_item, cruise_scan. step. step. step.
  set (divs := map (fun q => Some _) _).
  assert (Hkeep : forall d, shaped d -> Forall shaped (cruise_keep d items)).
  { intros d Hd. unfold cruise_keep. destruct (_ && _); [|exact Hs].
    apply Forall_app. split; [exact Hs|]. constructor; [|constructor].
    now destruct (negb _). }
  destruct (2 <=? _) eqn:E.
  2:{ steps. apply Hkeep, new_day_info_shape. }
  destruct (two_found _ _ E) as (a & b & Ha & Hb). fold divs in Ha, Hb.
  step. eapply returns_weaken;
    [eapply cruise_day_shape; [exact Ha | exact new_day_info_shape]|].
  intros [d|] ? Hd; [|now steps].
  step. eapply returns_weaken;
    [eapply cruise_location_shape; [exact Hb | exact Hd]|].
  intros d' ? Hd'. steps. apply Hkeep, at_sea_shape, Hd'.
Qed.

(** X12.  Every record either extractor returns has an empty [icon], an
    empty [image] and a [day] made of decimal digits only. *)
Theorem records_are_shaped (document : node) :
  returns parse_cruise_itinerary_days document
    (fun items _ => Forall shaped items) /\
  returns parse_tour_itinerary_days document
    (fun items _ => Forall shaped items).
Proof.
  split; unfold returns.
  - rewrite parse_cruise_loop.
    apply returns_for_each with (Inv := fun items _ => Forall shaped items);
      [|constructor].
    intros x acc d Hx Hacc. apply in_map_iff in Hx as (p & <- & _).
    now apply cruise_item_shape.
  - rewrite parse_tour_loop.
    apply returns_for_each with (Inv := fun items _ => Forall shaped items);
      [|constructor].
    intros x acc d Hx Hacc. apply in_map_iff in Hx as (p & <- & _).
    now apply tour_item_shape.
Qed.

(* ================================================================== *)
(** * Addresses in context *)
(* ================================================================== *)

Lemma occurs_in_context (sub s before after : str) :
  occurs_in sub s -> occurs_in sub (before ++ s ++ after).
Proof.
  intros (b & a & ->). exists (before ++ b), (a ++ after).
  now rewrite <- !app_assoc.
Qed.

(** X17.  The kind of an address is kept when text is put before or
    after it: a cruise address stays a cruise address, and a recognized
    address stays recognized. *)
Theorem classification_in_context (url before after : str) :
  (determine_scraper_type url = Some (u "cruise") ->
   determine_scraper_type (before ++ url ++ after) = Some (u "cruise")) /\
  (determine_scraper_type url <> None ->
   determine_scraper_type (before ++ url ++ after) <> None).
Proof.
  unfold determine_scraper_type. split.
  - destruct (contains (u "cruises.flightcentre") url) eqn:Ec.
    + intros _. apply contains_occurs in Ec.
      apply (occurs_in_context before after), contains_occurs in Ec.
      now rewrite Ec.
    + destruct (contains (u "tours.flightcentre") url); discriminate.
  - destruct (contains (u "cruises.flightcentre") url) eqn:Ec.
    + intros _. apply contains_occurs in Ec.
      apply (occurs_in_context before after), contains_occurs in Ec.
      now rewrite Ec.
    + destruct (contains (u "tours.flightcentre") url) eqn:Et;
        [|intros H; exfalso; apply H; reflexivity].
      intros _. apply contains_occurs in Et.
      apply (occurs_in_context before after), contains_occurs in Et.
      rewrite Et.
      destruct (contains (u "cruises.flightcentre") (before ++ url ++ after));
        intros H; discriminate H.
Qed.

Lemma classification_in_context_witness :
  determine_scraper_type
    (u "https://" ++ u "cruises.flightcentre.co.uk/cruises/gem/"
     ++ u "?occupancy=2-0-0-0-0")
  = Some (u "cruise").
Proof.
  apply (classification_in_context
           (u "cruises.flightcentre.co.uk/cruises/gem/") (u "https://")
           (u "?occupancy=2-0-0-0-0")).
  reflexivity.
Defined.

(* ================================================================== *)
(** * Normalized output *)
(* ================================================================== *)

Lemma returns_both {A} (m : M A) (document : node)
    (Q1 Q2 : A -> node -> Prop) :
  returns m document Q1 -> returns m document Q2 ->
  returns m document (fun a document' => Q1 a document' /\ Q2 a document').
Proof.
  intros (a & d & E & H1) H2. exists a, d. split; [exact E|].
  split; [exact H1 | exact (returns_gives H2 E)].
Qed.

Lemma has_target_app (a b : str) :
  has_target (a ++ b) = has_target a || has_target b.
Proof. apply existsb_app. Qed.

Lemma has_target_within (s t : str) :
  (forall x, In x s -> In x t) -> has_target t = false -> has_target s = false.
Proof.
  intros Hsub Ht. apply plain_text. intros y Hy.
  apply Hsub in Hy. destruct (is_target y) eqn:E; [|reflexivity].
  rewrite <- Ht. symmetry. apply existsb_exists. now exists y.
Qed.

Lemma after_literal_within (p s r : str) (x : char) :
  Re.after_literal p s = Some r -> In x r -> In x s.
Proof.
  revert s; induction p as [|c p IH]; intros s; cbn [Re.after_literal].
  - now intros [= ->].
  - destruct s as [|y s]; [discriminate|].
    destruct (N.eqb c y); [|discriminate]. intros E Hx. right. eauto.
Qed.

Lemma in_skipn_within {A} (n : nat) (l : list A) (x : A) :
  In x (skipn n l) -> In x l.
Proof.
  revert l; induction n as [|n IH]; intros [|y l]; cbn [skipn]; auto.
  intros H. right. auto.
Qed.

(** What is left of a title is part of the title. *)
Lemma sub_day_prefix_within (s : str) (x : char) :
  In x (Re.sub_day_prefix s) -> In x s.
Proof.
  unfold Re.sub_day_prefix, Re.match_day_colon.
  destruct (Re.after_literal _ s) as [r|] eqn:Er; [|auto].
  destruct (Re.digits_then_colon _ r) as [n|]; [|auto].
  intros H. apply in_drop_while, in_skipn_within in H.
  eapply after_literal_within; eassumption.
Qed.

Lemma new_day_info_tidy : tidy new_day_info.
Proof. now split. Qed.

Lemma tour_title_tidy (item : path) (day_info : DayInfo) (document : node) :
  returns (tour_title (Some item) day_info) document
    (fun f _ =>
       match f with
       | Continue => True
       | Next d => has_target (title d) = false
       end).
Proof.
  unfold tour_title. step. step.
  destruct (option_map _ _) as [title_elem|]; cbn [truthy]; [|now step].
  step. step. step. step.
  set (arrow := option_map _ _). clearbody arrow.
  apply returns_bind.
  apply returns_weaken with (Q := fun _ _ => True).
  { destruct arrow as [a|]; cbn [truthy]; steps; exact I. }
  intros title_text ? _.
  destruct (Re.search_day_colon (clean title_text)) as [m|] eqn:E;
    cbn [truthy]; [|now step].
  steps. cbn [title set_title].
  apply has_target_within with (t := clean title_text);
    [apply sub_day_prefix_within | apply plain_text, in_clean_plain].
Qed.

Lemma tour_body_tidy (item : path) (day_info : DayInfo) (document : node) :
  has_target (body day_info) = false ->
  returns (tour_body (Some item) day_info) document
    (fun d _ => has_target (body d) = false).
Proof.
  intros Hb. unfold tour_body. step. step.
  destruct (option_map _ _) as [content|]; cbn [truthy]; [|now steps].
  step. step. apply returns_bind.
  apply returns_weaken with (Q := fun _ _ => True).
  - destruct (nonempty_list _); [|now steps].
    step. eapply returns_weaken; [apply texts_of_spec|].
    intros texts ? _. now steps.
  - intros body_text ? _. steps. apply plain_text, in_clean_plain.
Qed.

Lemma tour_item_tidy (item : path) (items : list DayInfo) (document : node) :
  Forall tidy items ->
  returns (tour_item (Some item) items) document
    (fun items' _ => Forall tidy items').
Proof.
  intros Hs. unfold tour_item. apply returns_bind.
  eapply returns_weaken;
    [apply returns_both; [apply tour_title_tidy | apply tour_title_spec]|].
  intros [d|] ? [Ht [_ H]]; [|now step].
  destruct H as [_ Hbody]. apply returns_bind.
  eapply returns_weaken;
    [apply returns_both;
       [apply (@tour_body_tidy item d); now rewrite Hbody
       | apply tour_body_spec]|].
  intros d' ? (Hb & _ & _ & Htitle). step.
  unfold tour_keep. destruct (_ && _); [|exact Hs].
  apply Forall_app. split; [exact Hs|]. constructor; [|constructor].
  split; [now rewrite Htitle | exact Hb].
Qed.

Lemma cruise_location_tidy (divs : list ref) (second_div : path)
    (day_info : DayInfo) (document : node) :
  nth_error divs 1 = Some (Some second_div) ->
  tidy day_info ->
  returns (cruise_location divs day_info) document (fun d _ => tidy d).
Proof.
  intros H1 Hs. unfold cruise_location. step.
  eapply returns_index; [exact H1|]. step. step. step.
  apply returns_weaken with (Q := fun d _ => tidy d).
  { destruct (option_map _ _) as [h5|]; cbn [truthy]; steps; [|exact Hs].
    split; [apply plain_text, in_clean_plain | apply Hs]. }
  intros d ? Hd. step. step.
  destruct (option_map _ _) as [cw|]; cbn [truthy]; [|now step].
  step. eapply returns_weaken; [apply resolve_description_spec|].
  intros s ? _. destruct (nonempty s); step; [|exact Hd].
  split; [apply Hd | apply plain_text, in_clean_plain].
Qed.

Lemma at_sea_tidy (d : DayInfo) : tidy d -> tidy (at_sea d).
Proof.
  unfold at_sea. destruct (_ && _); [|auto].
  intros [Ht _]. split; [exact Ht | reflexivity].
Qed.

Lemma cruise_keep_tidy (d : DayInfo) (items : list DayInfo) :
  tidy d -> Forall tidy items -> Forall tidy (cruise_keep d items).
Proof.
  intros [Ht Hb] Hs. unfold cruise_keep. destruct (_ && _); [|exact Hs].
  apply Forall_app. split; [exact Hs|]. constructor; [|constructor].
  destruct (negb _); [|now split]. split; [exact Ht|].
  cbn [body set_body]. unfold generic_body.
  rewrite !has_target_app, Ht. reflexivity.
Qed.

Lemma cruise_item_tidy (item : path) (items : list DayInfo) (document : node) :
  Forall tidy items ->
  returns (cruise_item (Some item) items) document
    (fun items' _ => Forall tidy items').
Proof.
  intros Hs. unfold cruise_item, cruise_scan. step. step. step.
  set (divs := map (fun q => Some _) _).
  destruct (2 <=? _) eqn:E.
  2:{ steps. now apply cruise_keep_tidy; [apply new_day_info_tidy|]. }
  destruct (two_found _ _ E) as (a & b & Ha & Hb). fold divs in Ha, Hb.
  step. eapply returns_weaken; [eapply cruise_day_spec, Ha|].
  intros [d|] ? [_ H]; [|now steps].
  destruct H as (Ht & Hbody & _).
  step. eapply returns_weaken;
    [eapply cruise_location_tidy; [exact Hb|]|].
  { split; [now rewrite Ht | now rewrite Hbody]. }
  intros d' ? Hd'. steps. now apply cruise_keep_tidy; [apply at_sea_tidy|].
Qed.


(** X18.  The title and the body of every record either extractor
    returns have none of the seven characters [clean_text] replaces. *)
Theorem records_are_normalized (document : node) :
  returns parse_cruise_itinerary_days document
    (fun items _ => Forall tidy items) /\
  returns parse_tour_itinerary_days document
    (fun items _ => Forall tidy items).
Proof.
  split; unfold returns.
  - rewrite parse_cruise_loop.
    apply returns_for_each with (Inv := fun items _ => Forall tidy items);
      [|constructor].
    intros x acc d Hx Hacc. apply in_map_iff in Hx as (p & <- & _).
    now apply cruise_item_tidy.
  - rewrite parse_tour_loop.
    apply returns_for_each with (Inv := fun items _ => Forall tidy items);
      [|constructor].
    intros x acc d Hx Hacc. apply in_map_iff in Hx as (p & <- & _).
    now apply tour_item_tidy.
Qed.

(* ================================================================== *)
(** * The summary, cleaned up again *)
(* ================================================================== *)

Lemma drop_while_twice (f : char -> bool) (s : str) :
  drop_while f (drop_while f s) = drop_while f s.
Proof.
  induction s as [|c s IH]; [reflexivity|]. cbn [drop_while].
  destruct (f c) eqn:E; [exact IH|]. cbn [drop_while]. now rewrite E.
Qed.

Lemma drop_while_fixed (f : char -> bool) (s : str) :
  match s with [] => True | c :: _ => f c = false end -> drop_while f s = s.
Proof. destruct s as [|c s]; [reflexivity|]. cbn. now intros ->. Qed.

(** Stripping what is stripped changes nothing. *)
Lemma strip_strip (s : str) : strip (strip s) = strip s.
Proof.
  unfold strip. set (y := lstrip s).
  assert (Hy : match y with [] => True | c :: _ => is_space c = false end)
    by apply drop_while_head.
  assert (Hl : lstrip (rstrip y) = rstrip y).
  { apply drop_while_fixed. destruct (rstrip_prefix y) as [tail E].
    destruct (rstrip y) as [|c r]; [exact I|]. rewrite E in Hy. exact Hy. }
  rewrite Hl. unfold rstrip. now rewrite rev_involutive, drop_while_twice.
Qed.

Lemma strip_after_space (s : str) : strip (32%N :: s) = strip s.
Proof. reflexivity. Qed.

Lemma split_joined (f : str) (rest : list str) :
  Forall (fun g => ~ In 46%N g) (f :: rest) ->
  split 46%N (join [46; 32]%N (f :: rest)) = f :: map (cons 32%N) rest.
Proof.
  revert f; induction rest as [|g rest IH]; intros f H.
  - cbn [join map]. apply split_no_sep. now inversion H.
  - change (join [46; 32]%N (f :: g :: rest))
      with (f ++ 46%N :: 32%N :: join [46; 32]%N (g :: rest)).
    inversion H as [|? ? Hf Hrest]; subst.
    rewrite split_app_sep, (@split_no_sep 46%N f Hf).
    cbn [app split N.eqb Pos.eqb]. now rewrite (IH g Hrest).
Qed.

Lemma sentences_of_joined (frs : list str) :
  Forall (fun f => nonempty f = true /\ ~ In 46%N f) frs ->
  Forall (fun f => strip f = f) frs ->
  sentences_of (join [46; 32]%N frs) = frs.
Proof.
  intros H Hs. destruct frs as [|f rest]; [reflexivity|].
  unfold sentences_of. rewrite split_joined.
  2:{ eapply Forall_impl; [|exact H]. now intros g [_ Hg]. }
  inversion H as [|? ? [Hf _] Hrest]; inversion Hs as [|? ? Hsf Hsrest]; subst.
  cbn [filter]. rewrite Hsf, Hf. cbn [map]. rewrite Hsf. f_equal.
  clear -Hrest Hsrest. induction rest as [|g rest IH]; [reflexivity|].
  inversion Hrest as [|? ? [Hg _] Hrest']; inversion Hsrest as [|? ? Hsg Hsrest'];
    subst.
  cbn [map filter]. rewrite strip_after_space, Hsg, Hg. cbn [map].
  rewrite strip_after_space, Hsg. f_equal. now apply IH.
Qed.

Lemma fragments_stripped (text : str) :
  Forall (fun f => strip f = f) (fragments text).
Proof.
  unfold fragments. apply Forall_forall. intros f Hf.
  apply filter_In in Hf as [Hf _].
  apply in_map_iff in Hf as (piece & <- & _). apply strip_strip.
Qed.

Lemma in_join (sep : str) (l : list str) (x : char) :
  In x (join sep l) -> In x sep \/ exists p, In p l /\ In x p.
Proof.
  induction l as [|p l IH]; [intros []|].
  destruct l as [|q l].
  - cbn [join]. intros H. right. exists p. split; [now left | exact H].
  - change (join sep (p :: q :: l)) with (p ++ sep ++ join sep (q :: l)).
    intros H. apply in_app_or in H as [H|H];
      [right; exists p; split; [now left | exact H]|].
    apply in_app_or in H as [H|H]; [now left|].
    destruct (IH H) as [H'|(r & Hr & Hx)]; [now left|].
    right. exists r. split; [now right | exact Hx].
Qed.

Lemma in_split_piece (sep : char) (s piece : str) (x : char) :
  In piece (split sep s) -> In x piece -> In x s.
Proof.
  revert piece; induction s as [|c s IH]; intros piece; cbn [split].
  - intros [<-|[]] [].
  - destruct (N.eqb c sep).
    + intros [<-|H] Hx; [destruct Hx | right; eauto].
    + destruct (split sep s) as [|p ps] eqn:E.
      * intros [<-|[]] [<-|[]]. now left.
      * intros [<-|H] Hx.
        -- destruct Hx as [<-|Hx]; [now left | right].
           apply (IH p); [now left | exact Hx].
        -- right. apply (IH piece); [now right | exact Hx].
Qed.

Lemma summary_plain (text : str) :
  has_target (join [46; 32]%N (fragments (clean text))) = false.
Proof.
  apply plain_text. intros y Hy.
  apply in_join in Hy as [Hy|(f & Hf & Hy)].
  - destruct Hy as [<-|[<-|[]]]; reflexivity.
  - unfold fragments in Hf. apply filter_In in Hf as [Hf _].
    apply in_map_iff in Hf as (piece & <- & Hp).
    apply in_strip in Hy. apply (in_clean_plain text).
    exact (in_split_piece _ _ _ _ Hp Hy).
Qed.

(** X19.  The one string of the summary has none of the seven
    characters [clean_text] replaces, and cleaning it up again, as the
    extractor cleans up the text of the description, gives it back
    unchanged. *)
Theorem summary_is_stable (document : node) :
  exists s,
    parse_tour_itinerary_description document = Ok ([s], document) /\
    has_target s = false /\
    join (u ". ") (sentences_of (clean s)) = s.
Proof.
  eexists. split; [apply parse_tour_description_spec|].
  destruct (first_tag _ _ document) as [p|]; [|split; reflexivity].
  change (u ". ") with [46; 32]%N.
  split; [apply summary_plain|].
  rewrite (clean_unchanged _ (summary_plain _)).
  f_equal. apply sentences_of_joined;
    [apply fragments_spec | apply fragments_stripped].
Qed.

(* ================================================================== *)
(** * The properties above, on the sample pages *)
(* ================================================================== *)

Lemma cruise_result_has_empty_summary_witness :
  exists items document',
    parse_cruise_itinerary_days Samples.cruise_page = Ok (items, document') /\
    scrape_content
      (fun _ => Some (u "https://cruises.flightcentre.com.au/robots.txt"))
      (fun _ => Fetched (u "<html>")) (fun _ => Samples.cruise_page)
      (u "https://cruises.flightcentre.com.au/cruises/gem/")
    = (Ok {| summary := [[]]; itinerary := items |},
       [u "https://cruises.flightcentre.com.au/robots.txt";
        u "https://cruises.flightcentre.com.au/cruises/gem/"]).
Proof.
  apply (@cruise_result_has_empty_summary
           (fun _ => Some (u "https://cruises.flightcentre.com.au/robots.txt"))
           (fun _ => Fetched (u "<html>")) (fun _ => Samples.cruise_page)
           (u "https://cruises.flightcentre.com.au/cruises/gem/")
           (u "https://cruises.flightcentre.com.au/robots.txt")
           (u "<html>")).
  - apply contains_occurs. vm_compute. reflexivity.
  - reflexivity.
  - reflexivity.
Defined.

Lemma fetch_failure_is_raised_witness :
  scrape_content
    (fun _ => Some (u "https://tours.flightcentre.com.au/robots.txt"))
    (fun _ => RequestException (u "404 Client Error")) (fun _ => Gone)
    (u "https://tours.flightcentre.com.au/t/1842")
  = (Raise (fetch_failed (u "404 Client Error")),
     [u "https://tours.flightcentre.com.au/robots.txt";
      u "https://tours.flightcentre.com.au/t/1842"]) /\
  scrape_content
    (fun _ => Some (u "https://tours.flightcentre.com.au/robots.txt"))
    (fun _ => Uncaught (u "LocationParseError")) (fun _ => Gone)
    (u "https://tours.flightcentre.com.au/t/1842")
  = (Raise (TransportError (u "LocationParseError")),
     [u "https://tours.flightcentre.com.au/robots.txt";
      u "https://tours.flightcentre.com.au/t/1842"]).
Proof.
  split.
  - apply (@fetch_failure_is_raised
             (fun _ => Some (u "https://tours.flightcentre.com.au/robots.txt"))
             (fun _ => RequestException (u "404 Client Error")) (fun _ => Gone)
             (u "https://tours.flightcentre.com.au/t/1842")
             (u "https://tours.flightcentre.com.au/robots.txt")).
    + right. apply contains_occurs. vm_compute. reflexivity.
    + reflexivity.
    + reflexivity.
  - apply (@fetch_failure_is_raised
             (fun _ => Some (u "https://tours.flightcentre.com.au/robots.txt"))
             (fun _ => Uncaught (u "LocationParseError")) (fun _ => Gone)
             (u "https://tours.flightcentre.com.au/t/1842")
             (u "https://tours.flightcentre.com.au/robots.txt")).
    + right. apply contains_occurs. vm_compute. reflexivity.
    + reflexivity.
    + reflexivity.
Defined.

Lemma main_agrees_with_classifier_witness :
  fst (scrape_content (fun _ => None) (fun _ => RequestException []) (fun _ => Gone)
         (u "https://tours.flightcentre.co.nz/t/5578"))
  <> Raise unrecognized_url.
Proof.
  apply (main_agrees_with_classifier (fun _ => None) (fun _ => RequestException [])
           (fun _ => Gone) (u "https://tours.flightcentre.co.nz/t/5578")).
  reflexivity.
Defined.

Lemma download_name_is_safe_witness :
  exists part,
    filename_part (u "cruises.flightcentre.com.au") (u "cruise") = Ok part /\
    nonempty part = true /\ ~ In 47%N part.
Proof.
  destruct (download_name_is_safe (u "cruises.flightcentre.com.au") (u "cruise"))
    as (part & E & _ & Hn & Hs).
  exists part. split; [exact E|]. split.
  - apply Hn. reflexivity.
  - apply Hs. vm_compute. intuition discriminate.
Defined.
